(** * youtube-to-mp3-downloader: a shallow embedding of [src/index.ts]

    The development follows the source file top to bottom:
    - [JS]: the fragment of JavaScript the file relies on (strings as
      sequences of UTF-16 code units, [replace] with a global one-character
      pattern, [indexOf], [split], [trim], numbers as binary64 floats,
      values, exceptions);
    - [Downloader]: [CHAR_REPLACES], [cleanFileName], [DEFAULT_OPTIONS], the
      constructor, [_ensureDir] and [_downloadByInfo], the latter cut at its
      natural seams (metadata, thumbnail, output path, bitrate, the event
      handlers);
    - the properties of each part. *)

From Stdlib Require Import Floats NArith ZArith Ascii String List Bool Lia.
From stdpp Require Import gmap strings list.

Set Warnings "-register-all".

Local Open Scope N_scope.

(* ===================================================================== *)
(** ** The JavaScript fragment                                            *)
(* ===================================================================== *)

Module JS.

(** A JavaScript string is a finite sequence of UTF-16 code units. *)
Definition char := N.
Definition jsstring := list char.

Definition code (a : ascii) : char := N_of_ascii a.

(** ASCII literals of the source, as code units. *)
Fixpoint lit (s : string) : jsstring :=
  match s with
  | EmptyString => []
  | String a r => code a :: lit r
  end.

(** [s.replace(/c/g, by)] for a pattern that is one literal character:
    every occurrence of [c] is replaced, left to right. *)
Definition replace_global (c : char) (by_ : jsstring) (s : jsstring) : jsstring :=
  flat_map (fun x => if x =? c then by_ else [x]) s.

(** [s.indexOf(c)] for a one-character search string: the index of the
    first occurrence, or -1. *)
Fixpoint indexOf_from (i : Z) (s : jsstring) (c : char) : Z :=
  match s with
  | [] => (-1)%Z
  | x :: r => if x =? c then i else indexOf_from (i + 1)%Z r c
  end.

Definition indexOf (s : jsstring) (c : char) : Z := indexOf_from 0%Z s c.

(** [s.split(c)] for a one-character separator: the pieces between the
    occurrences of [c]; never the empty array. *)
Fixpoint split (s : jsstring) (c : char) : list jsstring :=
  match s with
  | [] => [[]]
  | x :: r =>
      if x =? c then [] :: split r c
      else match split r c with
           | h :: t => (x :: h) :: t
           | [] => [[x]]
           end
  end.

(** ECMAScript WhiteSpace and LineTerminator code points (all in the
    basic plane), the characters [trim] strips. *)
Definition isWhiteSpace (c : char) : bool :=
  (c =? 9) || (c =? 10) || (c =? 11) || (c =? 12) || (c =? 13)
  || (c =? 32) || (c =? 160) || (c =? 5760)
  || ((8192 <=? c) && (c <=? 8202))
  || (c =? 8232) || (c =? 8233) || (c =? 8239) || (c =? 8287)
  || (c =? 12288) || (c =? 65279).

Fixpoint trimStart (s : jsstring) : jsstring :=
  match s with
  | [] => []
  | x :: r => if isWhiteSpace x then trimStart r else s
  end.

Definition trimEnd (s : jsstring) : jsstring := rev (trimStart (rev s)).

Definition trim (s : jsstring) : jsstring := trimEnd (trimStart s).

(** A string is falsy exactly when it is empty. *)
Definition truthy_string (s : jsstring) : bool :=
  match s with [] => false | _ => true end.

(** [a || b] on strings. *)
Definition or_string (a b : jsstring) : jsstring :=
  if truthy_string a then a else b.

(** Numbers are binary64 floats; [===] on numbers is IEEE equality. *)
Definition number := float.

Definition strict_eq_number (a b : number) : bool := PrimFloat.eqb a b.

(** A number is falsy when it is [0], [-0] or [NaN]. *)
Definition truthy_number (a : number) : bool :=
  negb (PrimFloat.eqb a 0%float || PrimFloat.is_nan a).

(** The values an option bag can hold. *)
Inductive value : Type :=
| VUndefined
| VNull
| VBool (b : bool)
| VNum (n : number)
| VStr (s : jsstring)
| VArr (l : list value)
| VObj (fields : list (string * value)).

(** An object as a finite map from own property names to values. *)
Abbreviation object := (gmap string value).

(** [o.k]: a missing property reads as [undefined]. *)
Definition get (o : object) (k : string) : value :=
  match o !! k with
  | Some v => v
  | None => VUndefined
  end.

Definition nullish (v : value) : bool :=
  match v with
  | VUndefined | VNull => true
  | _ => false
  end.

(** [v ?? d]. *)
Definition coalesce (v d : value) : value := if nullish v then d else v.

(** [!v]'s operand test. *)
Definition truthy (v : value) : bool :=
  match v with
  | VUndefined | VNull => false
  | VBool b => b
  | VNum n => truthy_number n
  | VStr s => truthy_string s
  | VArr _ | VObj _ => true
  end.

(** [Object.assign(target, source)]: every own property of [source] is
    written to [target], whatever its value. *)
Definition Object_assign (target source : object) : object := source ∪ target.

(** Exceptions the modelled code can raise. *)
Inductive exn : Type :=
| TypeError
| SystemError (errno : string)
| Error (message : jsstring).

Inductive result (A : Type) : Type :=
| Ok (a : A)
| Throw (e : exn).
Arguments Ok {A} a.
Arguments Throw {A} e.

(** Sequencing: the first exception raised ends the computation. *)
#[export] Instance result_ret : MRet result := fun A a => Ok a.

#[export] Instance result_bind : MBind result := fun A B k r =>
  match r with
  | Ok a => k a
  | Throw e => Throw e
  end.

End JS.

Import JS.

(* ===================================================================== *)
(** ** The downloader                                                     *)
(* ===================================================================== *)

Module Downloader.

Definition hyphen : char := code "-".

Definition DEFAULT_BITRATE : number := 192%float.

(** Lines 11-19. Each pattern is one literal character with the [g] flag;
    the first and the third row are the same pattern. *)
Definition CHAR_REPLACES : list (char * jsstring) :=
  [ (code "'", []);
    (code "|", []);
    (code "'", []);
    (code "/", []);
    (code "?", []);
    (code ":", []);
    (code ";", []) ].

(** Lines 66-71. *)
Definition cleanFileName (fileName : jsstring) : jsstring :=
  fold_left
    (fun fileName replacement =>
       replace_global (fst replacement) (snd replacement) fileName)
    CHAR_REPLACES fileName.

(** Lines 102-103 and 110-118 of [_downloadByInfo]: the pair
    [(artist, title)] derived from the cleaned title. *)
Definition deriveArtistTitle (videoTitle : jsstring) : jsstring * jsstring :=
  let artist := lit "Unknown" in
  let title := lit "Unknown" in
  if (indexOf videoTitle hyphen >? -1)%Z then
    let temp := split videoTitle hyphen in
    if (2 <=? length temp)%nat then
      (trim (nth 0 temp []), trim (nth 1 temp []))
    else (artist, title)
  else (artist, videoTitle).

(** *** The descriptor returned by the resolver (ytdl's [videoInfo]) *)

Module Thumbnail.
Record t := { url : jsstring }.
End Thumbnail.

(** The older [videoDetails.thumbnail] holder of a thumbnail array. *)
Module ThumbnailHolder.
Record t := { thumbnails : list Thumbnail.t }.
End ThumbnailHolder.

(** [None] stands for a property that is [undefined] (or [null]). *)
Module VideoDetails.
Record t := {
  title : jsstring;
  videoId : jsstring;
  thumbnails : option (list Thumbnail.t);
  thumbnail : option ThumbnailHolder.t
}.
End VideoDetails.

Module Format.
Record t := {
  container : jsstring;
  audioBitrate : option number
}.
End Format.

Module VideoInfo.
Record t := {
  videoDetails : VideoDetails.t;
  formats : list Format.t
}.
End VideoInfo.

(** Lines 104-108: [thumbnails ? thumbnails[0].url
    : thumbnail?.thumbnails[0]?.url]. An array is truthy even when empty,
    and reading [.url] of a missing first entry raises. *)
Definition thumbnailOf (d : VideoDetails.t) : result (option jsstring) :=
  match VideoDetails.thumbnails d with
  | Some ts =>
      match ts !! 0%nat with
      | Some t0 => Ok (Some (Thumbnail.url t0))
      | None => Throw TypeError
      end
  | None =>
      match VideoDetails.thumbnail d with
      | None => Ok None
      | Some h => Ok (Thumbnail.url <$> (ThumbnailHolder.thumbnails h !! 0%nat))
      end
  end.

(** Line 170: [formats.find(f => !!f.audioBitrate)!.audioBitrate ??
    DEFAULT_BITRATE]. The [!] is erased by the compiler: when [find]
    gives [undefined], the property read raises. *)
Definition exposes_bitrate (format : Format.t) : bool :=
  match Format.audioBitrate format with
  | Some n => truthy_number n
  | None => false
  end.

Definition audioBitrateOf (formats : list Format.t) : result number :=
  match List.find exposes_bitrate formats with
  | None => Throw TypeError
  | Some format =>
      Ok (match Format.audioBitrate format with
          | Some n => n
          | None => DEFAULT_BITRATE
          end)
  end.

(** *** The file system seen by [existsSync] and [mkdirSync] *)

Inductive node : Type := File | Dir.

(** A resolved path: the component names from the root. *)
Abbreviation path := (list jsstring).

Abbreviation FS := (gmap (list jsstring) node).

(** The root is always a directory. *)
Definition node_at (fs : FS) (p : path) : option node :=
  match p with
  | [] => Some Dir
  | _ => fs !! p
  end.

Definition parent (p : path) : path := removelast p.

(** [mkdir] of one directory, without the [recursive] option. *)
Definition mkdir_at (fs : FS) (p : path) : result FS :=
  match node_at fs p with
  | Some _ => Throw (SystemError "EEXIST")
  | None =>
      match node_at fs (parent p) with
      | Some Dir => Ok (<[p := Dir]> fs)
      | Some File => Throw (SystemError "ENOTDIR")
      | None => Throw (SystemError "ENOENT")
      end
  end.

(** *** Interfaces of lines 34-64 *)

Module Progress.
Record t := {
  percentage : number;
  transferred : number;
  length : number;
  remaining : number;
  eta : number;
  runtime : number;
  delta : number;
  speed : number
}.
End Progress.

Module IProgress.
Record t := { videoId : jsstring; progress : Progress.t }.
End IProgress.

Module IResultStats.
Record t := {
  transferredBytes : number;
  runtime : number;
  averageSpeed : number
}.
End IResultStats.

(** [stats] is read from a variable that may never have been assigned,
    [thumbnail] may be [undefined]: both are options here. *)
Module IResult.
Record t := {
  videoId : jsstring;
  stats : option IResultStats.t;
  file : jsstring;
  youtubeUrl : jsstring;
  videoTitle : jsstring;
  artist : jsstring;
  title : jsstring;
  thumbnail : option jsstring
}.
End IResult.

Definition BASE_URL : jsstring := lit "https://www.youtube.com/watch?v=".

(** The instance: [videoId] and the resolved [options]. *)
Module Self.
Record t := { videoId : jsstring; options : object }.
End Self.

(** Line 92. *)
Definition videoUrl (self : Self.t) : jsstring := BASE_URL ++ Self.videoId self.

(** What the encoder is started with (lines 173-177 and 192). *)
Module Encoder.
Record t := {
  audioBitrate : number;
  audioCodec : jsstring;
  format : jsstring;
  outputOptions : list value;
  saveToFile : jsstring
}.
End Encoder.

(** Lines 125-132; [filter] is the container test, when there is one. *)
Module StreamOptions.
Record t := {
  quality : value;
  requestOptions : value;
  filter : option (Format.t -> bool)
}.
End StreamOptions.

(** The constants of [_downloadByInfo] fixed before the stream opens. *)
Module Prepared.
Record t := {
  videoTitle : jsstring;
  artist : jsstring;
  title : jsstring;
  thumbnail : option jsstring;
  fileName : jsstring;
  streamOptions : StreamOptions.t
}.
End Prepared.

(** How a promise ends: [resolve(data)], where [data] is the result
    object or the [null] of an error callback, or [reject]. *)
Inductive reason : Type :=
| Thrown (e : exn)
| Emitted (err : value).

Inductive outcome : Type :=
| Resolved (data : option IResult.t)
| Rejected (r : reason).

(** What the stream, the progress tap and the encoder can deliver. *)
Inductive event : Type :=
| StreamError (err : value)
| StreamResponse
| StrProgress (progress : Progress.t)
| FfmpegError (err : value)
| FfmpegEnd.

(** The variables of one run: the [stats] variable of line 100, the
    encoder once the response handler has started it, the progress
    events emitted so far (oldest first), the state of the promise, and
    an exception that escaped an event handler. *)
Module Run.
Record t := {
  stats : option IResultStats.t;
  encoder : option Encoder.t;
  emitted : list IProgress.t;
  settled : option outcome;
  uncaught : option exn
}.
End Run.

Section Environment.

(** [process.cwd()]. *)
Variable cwd : jsstring.
(** How the host resolves a path string; [None] for a string that names
    no location (the empty string). *)
Variable resolve_path : jsstring -> option path.
(** [path.join] of two strings. *)
Variable path_join : jsstring -> jsstring -> jsstring.
(** The [sanitize-filename] package. *)
Variable sanitizeFilename : jsstring -> jsstring.
(** [Number.prototype.toFixed] and [parseFloat]. *)
Variable toFixed : number -> nat -> jsstring.
Variable parseFloat : jsstring -> number.

(** [fs.existsSync]: [false] for whatever is not an existing path. *)
Definition existsSync (fs : FS) (p : value) : bool :=
  match p with
  | VStr s =>
      match resolve_path s with
      | Some q => bool_decide (is_Some (node_at fs q))
      | None => false
      end
  | _ => false
  end.

(** [fs.mkdirSync(p)], called without options. *)
Definition mkdirSync (fs : FS) (p : value) : result FS :=
  match p with
  | VStr s =>
      match resolve_path s with
      | Some q => mkdir_at fs q
      | None => Throw (SystemError "ENOENT")
      end
  | _ => Throw TypeError
  end.

(** Lines 73-81. *)
Definition DEFAULT_OPTIONS : object :=
  list_to_map
    [ ("outputPath"%string, VStr cwd);
      ("youtubeVideoQuality"%string, VStr (lit "highestaudio"));
      ("queueParallelism"%string, VNum 1%float);
      ("progressTimeout"%string, VNum 1000%float);
      ("allowWebm"%string, VBool false);
      ("requestOptions"%string, VObj [("maxRedirects"%string, VNum 5%float)]);
      ("outputOptions"%string, VArr []) ].

(** Line 88: [Object.assign({}, DEFAULT_OPTIONS, options ?? {})]. *)
Definition resolveOptions (options : option object) : object :=
  Object_assign (Object_assign ∅ DEFAULT_OPTIONS) (default ∅ options).

(** Lines 94-97. *)
Definition _ensureDir (options : object) (fs : FS) : result FS :=
  let dir := coalesce (get options "outputPath") (VStr []) in
  if negb (existsSync fs dir) then mkdirSync fs dir else Ok fs.

(** Lines 86-90: the instance and the file system it leaves. *)
Definition constructor (videoId : jsstring) (options : option object) (fs : FS)
  : result (Self.t * FS) :=
  let self := {| Self.videoId := videoId; Self.options := resolveOptions options |} in
  fs' ← _ensureDir (Self.options self) fs;
  Ok (self, fs').

(** [path.join] rejects an argument that is not a string. *)
Definition as_string (v : value) : result jsstring :=
  match v with
  | VStr s => Ok s
  | _ => Throw TypeError
  end.

(** Line 121: [this.options.outputPath ?? ''], as [path.join] takes it. *)
Definition outputDir (options : object) : result jsstring :=
  as_string (coalesce (get options "outputPath") (VStr [])).

(** Lines 120-123. *)
Definition outputFile (options : object) (videoTitle : jsstring)
    (d : VideoDetails.t) : result jsstring :=
  dir ← outputDir options;
  name ← as_string
    (coalesce (get options "fileName")
       (VStr (or_string (sanitizeFilename videoTitle) (VideoDetails.videoId d)
                ++ lit ".mp3")));
  Ok (path_join dir name).

(** Lines 125-132. *)
Definition streamOptionsOf (options : object) : StreamOptions.t :=
  {| StreamOptions.quality := get options "youtubeVideoQuality";
     StreamOptions.requestOptions := get options "requestOptions";
     StreamOptions.filter :=
       if negb (truthy (get options "allowWebm"))
       then Some (fun format =>
                    bool_decide (Format.container format = lit "mp4"))
       else None |}.

(** Lines 100-134, up to the opening of the stream. *)
Definition prepare (self : Self.t) (info : VideoInfo.t) : result Prepared.t :=
  let d := VideoInfo.videoDetails info in
  let videoTitle := cleanFileName (VideoDetails.title d) in
  thumbnail ← thumbnailOf d;
  let '(artist, title) := deriveArtistTitle videoTitle in
  fileName ← outputFile (Self.options self) videoTitle d;
  Ok {| Prepared.videoTitle := videoTitle;
        Prepared.artist := artist;
        Prepared.title := title;
        Prepared.thumbnail := thumbnail;
        Prepared.fileName := fileName;
        Prepared.streamOptions := streamOptionsOf (Self.options self) |}.

(** Lines 156-167. *)
Definition outputOptionsOf (options : object) (artist title : jsstring)
  : list value :=
  let outputOptions :=
    [ VStr (lit "-id3v2_version");
      VStr (lit "4");
      VStr (lit "-metadata");
      VStr (lit "title=" ++ title);
      VStr (lit "-metadata");
      VStr (lit "artist=" ++ artist) ] in
  let extra := get options "outputOptions" in
  if truthy extra then
    match extra with
    | VArr l => outputOptions ++ l
    | v => outputOptions ++ [v]
    end
  else outputOptions.

(** Lines 138-177, the part of the response handler that can raise. *)
Definition startEncoder (self : Self.t) (info : VideoInfo.t) (p : Prepared.t)
  : result Encoder.t :=
  let outputOptions :=
    outputOptionsOf (Self.options self) (Prepared.artist p) (Prepared.title p) in
  audioBitrate ← audioBitrateOf (VideoInfo.formats info);
  Ok {| Encoder.audioBitrate := audioBitrate;
        Encoder.audioCodec := lit "libmp3lame";
        Encoder.format := lit "mp3";
        Encoder.outputOptions := outputOptions;
        Encoder.saveToFile := Prepared.fileName p |}.

(** Lines 145-154: the progress listener's effect on [stats]. *)
Definition onProgress (stats : option IResultStats.t) (progress : Progress.t)
  : option IResultStats.t :=
  if strict_eq_number (Progress.percentage progress) 100%float then
    Some {| IResultStats.transferredBytes := Progress.transferred progress;
            IResultStats.runtime := Progress.runtime progress;
            IResultStats.averageSpeed :=
              parseFloat (toFixed (Progress.speed progress) 2) |}
  else stats.

(** Lines 180-189. *)
Definition resultObj (self : Self.t) (p : Prepared.t)
    (stats : option IResultStats.t) : IResult.t :=
  {| IResult.videoId := Self.videoId self;
     IResult.stats := stats;
     IResult.file := Prepared.fileName p;
     IResult.youtubeUrl := videoUrl self;
     IResult.videoTitle := Prepared.videoTitle p;
     IResult.artist := Prepared.artist p;
     IResult.title := Prepared.title p;
     IResult.thumbnail := Prepared.thumbnail p |}.

(** A promise settles once: later calls of [resolve] and [reject] do
    nothing. *)
Definition settle (o : outcome) (st : Run.t) : Run.t :=
  match Run.settled st with
  | Some _ => st
  | None =>
      {| Run.stats := Run.stats st;
         Run.encoder := Run.encoder st;
         Run.emitted := Run.emitted st;
         Run.settled := Some o;
         Run.uncaught := Run.uncaught st |}
  end.

(** Lines 203-206: [if (err) return reject(err); resolve(data)]. *)
Definition callback (err : value) (data : option IResult.t) (st : Run.t) : Run.t :=
  if truthy err then settle (Rejected (Emitted err)) st
  else settle (Resolved data) st.

(** One event delivered to the listeners of lines 136-192. The progress
    tap and the encoder exist only once a response has started them; an
    exception leaving a listener is not caught by the promise and stops
    the process. *)
Definition step (self : Self.t) (info : VideoInfo.t) (p : Prepared.t)
    (st : Run.t) (ev : event) : Run.t :=
  match Run.uncaught st with
  | Some _ => st
  | None =>
      match ev, Run.encoder st with
      | StreamError err, _ => callback err None st
      | StreamResponse, _ =>
          match startEncoder self info p with
          | Ok enc =>
              {| Run.stats := Run.stats st;
                 Run.encoder := Some enc;
                 Run.emitted := Run.emitted st;
                 Run.settled := Run.settled st;
                 Run.uncaught := None |}
          | Throw e =>
              {| Run.stats := Run.stats st;
                 Run.encoder := Run.encoder st;
                 Run.emitted := Run.emitted st;
                 Run.settled := Run.settled st;
                 Run.uncaught := Some e |}
          end
      | StrProgress progress, Some _ =>
          {| Run.stats := onProgress (Run.stats st) progress;
             Run.encoder := Run.encoder st;
             Run.emitted :=
               Run.emitted st
               ++ [ {| IProgress.videoId := Self.videoId self;
                       IProgress.progress := progress |} ];
             Run.settled := Run.settled st;
             Run.uncaught := None |}
      | FfmpegError err, Some _ => callback err None st
      | FfmpegEnd, Some _ =>
          callback VNull (Some (resultObj self p (Run.stats st))) st
      | _, None => st
      end
  end.

Definition initial : Run.t :=
  {| Run.stats := None;
     Run.encoder := None;
     Run.emitted := [];
     Run.settled := None;
     Run.uncaught := None |}.

(** The listeners applied to the events in the order they arrive. *)
Definition deliver (self : Self.t) (info : VideoInfo.t) (p : Prepared.t)
    (events : list event) : Run.t :=
  fold_left (step self info p) events initial.

(** Lines 99-194 inside the promise of lines 202-207: an exception
    raised before the stream opens rejects the promise; otherwise the
    events are handled in the order they arrive. *)
Definition _downloadByInfo (self : Self.t) (info : VideoInfo.t)
    (events : list event) : Run.t :=
  match prepare self info with
  | Throw e => settle (Rejected (Thrown e)) initial
  | Ok p => deliver self info p events
  end.

(** Lines 196-208; [info] is what [ytdl.getInfo] returned. *)
Definition download (self : Self.t) (info : option VideoInfo.t)
    (events : list event) : Run.t :=
  match info with
  | None =>
      settle (Rejected (Thrown (Error (lit "Invalid video url: " ++ videoUrl self))))
        initial
  | Some info => _downloadByInfo self info events
  end.

End Environment.

End Downloader.

Import Downloader.

(* ===================================================================== *)
(** ** Reference definitions, in the words of the specification           *)
(* ===================================================================== *)

Module Spec.

(** The text before the first occurrence of [c] (all of [s] without one). *)
Fixpoint before_first (c : char) (s : jsstring) : jsstring :=
  match s with
  | [] => []
  | x :: r => if x =? c then [] else x :: before_first c r
  end.

(** Everything after the first occurrence of [c]. *)
Fixpoint after_first (c : char) (s : jsstring) : jsstring :=
  match s with
  | [] => []
  | x :: r => if x =? c then r else after_first c r
  end.

(** Removal of every character of a set, nothing else touched. *)
Definition remove_chars (unsafe : char -> bool) (s : jsstring) : jsstring :=
  List.filter (fun x => negb (unsafe x)) s.

(** The characters the source removes. *)
Definition removed_by_code (c : char) : bool :=
  (c =? code "'") || (c =? code "|") || (c =? code "/")
  || (c =? code "?") || (c =? code ":") || (c =? code ";").

Definition curly_quote : char := 8217.

(** The set as the specification lists it: the six above and the curly
    (typographic) quote U+2019. *)
Definition removed_by_spec (c : char) : bool :=
  removed_by_code c || (c =? curly_quote).

(** The split on the first occurrence of [c] only, both halves trimmed. *)
Definition split_on_first (c : char) (t : jsstring) : jsstring * jsstring :=
  (trim (before_first c t), trim (after_first c t)).

(** The segments of a split that are non-empty once trimmed. *)
Definition nonempty_segments (segs : list jsstring) : list jsstring :=
  List.filter (fun seg => truthy_string (trim seg)) segs.

(** A progress event whose sample reports exactly 100 percent. *)
Definition complete (e : IProgress.t) : Prop :=
  strict_eq_number (Progress.percentage (IProgress.progress e)) 100%float = true.

(** The statistics [s] are what the progress listener stores for the
    sample of [e]. *)
Definition captured (toFixed : number -> nat -> jsstring)
    (parseFloat : jsstring -> number) (s : IResultStats.t) (e : IProgress.t) : Prop :=
  onProgress toFixed parseFloat None (IProgress.progress e) = Some s.

(** The [stats] variable against the progress events emitted so far: set
    from a complete sample, or unset with no complete sample seen. *)
Definition stats_inv (toFixed : number -> nat -> jsstring)
    (parseFloat : jsstring -> number) (st : Run.t) : Prop :=
  match Run.stats st with
  | Some s =>
      exists e, In e (Run.emitted st) /\ complete e /\ captured toFixed parseFloat s e
  | None => Forall (fun e => ~ complete e) (Run.emitted st)
  end.

End Spec.

Import Spec.

(* ===================================================================== *)
(** ** Concrete instances used in the examples                            *)
(* ===================================================================== *)

Module Samples.

(** The instance built by [new YoutubeToMp3Downloader(videoId)] in a
    process whose working directory is [cwd]. *)
Definition plain_self (cwd videoId : jsstring) : Self.t :=
  {| Self.videoId := videoId; Self.options := resolveOptions cwd None |}.

(** The instance built with an options object. *)
Definition self_with (cwd videoId : jsstring) (options : object) : Self.t :=
  {| Self.videoId := videoId; Self.options := resolveOptions cwd (Some options) |}.

(** A descriptor with one thumbnail and the given title and formats. *)
Definition sample_info (title : jsstring) (formats : list Format.t) : VideoInfo.t :=
  {| VideoInfo.videoDetails :=
       {| VideoDetails.title := title;
          VideoDetails.videoId := lit "abc123";
          VideoDetails.thumbnails := Some [ {| Thumbnail.url := lit "t.jpg" |} ];
          VideoDetails.thumbnail := None |};
     VideoInfo.formats := formats |}.

Definition video_only : Format.t :=
  {| Format.container := lit "mp4"; Format.audioBitrate := None |}.

Definition slash : char := code "/".

(** Stand-ins for the host functions: joining with a slash, a sanitizer
    that changes nothing, and resolution of an absolute path by its
    components. *)
Definition join_slash (a b : jsstring) : jsstring := a ++ slash :: b.

Definition sanitize_nothing (s : jsstring) : jsstring := s.

Definition resolve_absolute (s : jsstring) : option path :=
  match s with
  | [] => None
  | _ => Some (List.filter truthy_string (split s slash))
  end.

Definition audio_128 : Format.t :=
  {| Format.container := lit "mp4"; Format.audioBitrate := Some 128%float |}.

(** Stand-ins for [toFixed] and [parseFloat]: the rounding of the average
    speed plays no part in whether statistics are captured. *)
Definition toFixed_blank (n : number) (digits : nat) : jsstring := [].

Definition parseFloat_zero (s : jsstring) : number := 0%float.

(** A sample at the given percentage of a transfer of 1,000,000 bytes. *)
Definition sample_at (percentage transferred : number) : Progress.t :=
  {| Progress.percentage := percentage;
     Progress.transferred := transferred;
     Progress.length := 1000000%float;
     Progress.remaining := (1000000 - transferred)%float;
     Progress.eta := 0%float;
     Progress.runtime := 4%float;
     Progress.delta := 0%float;
     Progress.speed := 250000%float |}.

(** A run that reports 50 and then 100 percent before the encoder ends,
    and one whose stream ends at 50 percent. *)
Definition complete_run : Run.t :=
  _downloadByInfo join_slash sanitize_nothing toFixed_blank parseFloat_zero
    (plain_self (lit "/srv") (lit "abc123"))
    (sample_info (lit "Artist X - Cool Song") [video_only; audio_128])
    [ StreamResponse;
      StrProgress (sample_at 50%float 500000%float);
      StrProgress (sample_at 100%float 1000000%float);
      FfmpegEnd ].

Definition incomplete_run : Run.t :=
  _downloadByInfo join_slash sanitize_nothing toFixed_blank parseFloat_zero
    (plain_self (lit "/srv") (lit "abc123"))
    (sample_info (lit "Artist X - Cool Song") [video_only; audio_128])
    [ StreamResponse;
      StrProgress (sample_at 50%float 500000%float);
      FfmpegEnd ].

End Samples.

Import Samples.

(* ===================================================================== *)
(** ** Vocabulary of the further properties                               *)
(* ===================================================================== *)

Module Views.

(** A code unit that [cleanFileName] keeps. *)
Definition kept (c : char) : Prop := removed_by_code c = false.

(** Neither the first nor the last code unit is white space. *)
Definition trimmed (s : jsstring) : Prop :=
  match s with
  | [] => True
  | x :: _ => isWhiteSpace x = false /\ isWhiteSpace (List.last s x) = false
  end.



(** The progress event the listener of line 153 emits for a sample. *)
Definition tag (self : Self.t) (progress : Progress.t) : IProgress.t :=
  {| IProgress.videoId := Self.videoId self; IProgress.progress := progress |}.

(** The samples among the events, in order. *)
Definition samples (events : list event) : list Progress.t :=
  flat_map (fun ev => match ev with StrProgress q => [q] | _ => [] end) events.

(** The events that follow the first response of the stream. *)
Fixpoint after_response (events : list event) : list event :=
  match events with
  | [] => []
  | StreamResponse :: rest => rest
  | _ :: rest => after_response rest
  end.

Definition is_complete (e : IProgress.t) : bool :=
  strict_eq_number (Progress.percentage (IProgress.progress e)) 100%float.

(** The most recent of the emitted events that reports 100 percent. *)
Definition latest_complete (emitted : list IProgress.t) : option IProgress.t :=
  List.find is_complete (rev emitted).

(** An event through which the error callback is called with [err]: an
    error of the stream, or one of the encoder once it is started. *)
Definition reports_error (st : Run.t) (ev : event) (err : value) : Prop :=
  ev = StreamError err \/ (ev = FfmpegError err /\ is_Some (Run.encoder st)).

End Views.

Import Views.

Module Scenarios.

(** The run of the sample instance on the sample descriptor, as a function
    of the events delivered. *)
Definition sample_run (events : list event) : Run.t :=
  _downloadByInfo join_slash sanitize_nothing toFixed_blank parseFloat_zero
    (plain_self (lit "/srv") (lit "abc123"))
    (sample_info (lit "Artist X - Cool Song") [video_only; audio_128])
    events.

(** A response and three samples. *)
Definition three_samples : list event :=
  [ StreamResponse;
    StrProgress (sample_at 10%float 100000%float);
    StrProgress (sample_at 20%float 200000%float);
    StrProgress (sample_at 30%float 300000%float) ].

(** A whole transfer: a response, samples at 50 and 100 percent, the end of
    the encoder. *)
Definition whole_transfer : list event :=
  [ StreamResponse;
    StrProgress (sample_at 50%float 500000%float);
    StrProgress (sample_at 100%float 1000000%float);
    FfmpegEnd ].

Definition connection_reset : value := VStr (lit "ECONNRESET").

End Scenarios.

Import Scenarios.

(* ===================================================================== *)
(** ** Facts about the string operations                                  *)
(* ===================================================================== *)

Section StringFacts.

Implicit Types (s : jsstring) (c x : char).

Lemma replace_global_remove c s :
  replace_global c [] s = List.filter (fun x => negb (x =? c)) s.
Proof.
  unfold replace_global.
  induction s as [|a s IH]; [reflexivity|].
  cbn [flat_map List.filter]. rewrite IH.
  destruct (a =? c); reflexivity.
Qed.

Lemma filter_twice (p q : char -> bool) s :
  List.filter p (List.filter q s) = List.filter (fun x => q x && p x) s.
Proof.
  induction s as [|a s IH]; [reflexivity|].
  cbn [List.filter]. destruct (q a); cbn [List.filter andb]; rewrite IH; reflexivity.
Qed.

(** [indexOf] finds a character exactly when it occurs. *)
Lemma indexOf_from_spec c s :
  forall i, (0 <= i)%Z ->
    (indexOf_from i s c = -1 /\ ~ In c s)%Z
    \/ ((i <= indexOf_from i s c)%Z /\ In c s).
Proof.
  induction s as [|a s IH]; intros i Hi; cbn [indexOf_from].
  - left. split; [reflexivity | intros []].
  - destruct (N.eqb_spec a c) as [->|Hne].
    + right. split; [lia | now left].
    + destruct (IH (i + 1)%Z ltac:(lia)) as [[E Hn]|[Hle Hin]].
      * left. split; [exact E | intros [?|?]; [congruence | tauto]].
      * right. split; [lia | now right].
Qed.

Lemma indexOf_found s c : (indexOf s c > -1)%Z <-> In c s.
Proof.
  unfold indexOf.
  destruct (indexOf_from_spec c s 0%Z ltac:(lia)) as [[E Hn]|[Hle Hin]].
  - rewrite E. split; [lia | tauto].
  - split; [tauto | lia].
Qed.

Lemma split_head s c : exists t, split s c = before_first c s :: t.
Proof.
  induction s as [|a s [t IH]]; cbn [split before_first].
  - now exists [].
  - destruct (a =? c); [now eexists|].
    rewrite IH. now eexists.
Qed.

Lemma split_found s c :
  In c s -> split s c = before_first c s :: split (after_first c s) c.
Proof.
  induction s as [|a s IH]; intros Hin; [destruct Hin|].
  cbn [split before_first after_first].
  destruct (N.eqb_spec a c) as [->|Hne]; [reflexivity|].
  destruct Hin as [?|Hin]; [congruence|].
  rewrite (IH Hin). reflexivity.
Qed.

Lemma before_first_without c s : ~ In c s -> before_first c s = s.
Proof.
  induction s as [|a s IH]; intros Hn; [reflexivity|].
  cbn [before_first].
  destruct (N.eqb_spec a c) as [->|Hne]; [exfalso; apply Hn; now left|].
  rewrite IH; [reflexivity | intros H; apply Hn; now right].
Qed.

Lemma before_first_free c s : ~ In c (before_first c s).
Proof.
  induction s as [|a s IH]; cbn [before_first]; [intros []|].
  destruct (N.eqb_spec a c) as [->|Hne]; [intros []|].
  intros [?|?]; [congruence | tauto].
Qed.

Lemma trimStart_incl x s : In x (trimStart s) -> In x s.
Proof.
  induction s as [|a s IH]; cbn [trimStart]; [tauto|].
  destruct (isWhiteSpace a); [|tauto].
  intros H. right. auto.
Qed.

Lemma trim_incl x s : In x (trim s) -> In x s.
Proof.
  unfold trim, trimEnd. intros H.
  apply trimStart_incl. apply in_rev.
  eapply trimStart_incl. apply in_rev. exact H.
Qed.

(** In a title with a hyphen the split has at least two segments: the
    text before the first hyphen, then the text up to the next one. *)
Lemma split_two_segments s c :
  In c s ->
  exists rest,
    split s c = before_first c s :: before_first c (after_first c s) :: rest.
Proof.
  intros Hin. rewrite (split_found s c Hin).
  destruct (split_head (after_first c s) c) as [rest ->].
  now exists rest.
Qed.

End StringFacts.

(* ===================================================================== *)
(** ** Title cleaning                                                     *)
(* ===================================================================== *)

(** C3 (as stated, refuted): cleaning does not remove the curly quote
    U+2019, so it is not the removal of the seven characters the
    specification lists. *)
Lemma cleanFileName_keeps_curly_quote :
  cleanFileName [curly_quote] = [curly_quote]
  /\ cleanFileName [curly_quote] <> remove_chars removed_by_spec [curly_quote].
Proof. split; [reflexivity | discriminate]. Qed.

(** C3 (amended): for every input string, cleaning removes every occurrence
    of the straight single quote, pipe, slash, question mark, colon and
    semicolon, and keeps every other character, the curly quote included,
    in place and in order. *)
Theorem cleanFileName_removes_six_characters (fileName : jsstring) :
  cleanFileName fileName = remove_chars removed_by_code fileName.
Proof.
  unfold cleanFileName, CHAR_REPLACES, remove_chars.
  cbn [fold_left fst snd].
  rewrite !replace_global_remove, !filter_twice.
  apply filter_ext. intros a. unfold removed_by_code.
  destruct (a =? code "'"), (a =? code "|"), (a =? code "/"),
    (a =? code "?"), (a =? code ":"), (a =? code ";"); reflexivity.
Qed.

(* ===================================================================== *)
(** ** Artist and title                                                   *)
(* ===================================================================== *)

(** Scenarios A and B of the specification. *)
Example scenario_A :
  deriveArtistTitle (cleanFileName (lit "Artist X - Cool Song"))
  = (lit "Artist X", lit "Cool Song").
Proof. vm_compute. reflexivity. Qed.

Example scenario_B :
  deriveArtistTitle (cleanFileName (lit "NoHyphenTitle"))
  = (lit "Unknown", lit "NoHyphenTitle").
Proof. vm_compute. reflexivity. Qed.

(** C1 (as stated, refuted): with two hyphens the derived title stops at
    the second hyphen; it is not everything after the first. *)
Lemma title_stops_at_second_hyphen :
  (indexOf (lit "A-B-C") hyphen > -1)%Z
  /\ deriveArtistTitle (lit "A-B-C") = (lit "A", lit "B")
  /\ split_on_first hyphen (lit "A-B-C") = (lit "A", lit "B-C")
  /\ deriveArtistTitle (lit "A-B-C") <> split_on_first hyphen (lit "A-B-C").
Proof.
  split; [vm_compute; reflexivity|].
  split; [vm_compute; reflexivity|].
  split; [vm_compute; reflexivity | discriminate].
Qed.

(** C1 (amended): for every cleaned title with at least one hyphen, the
    artist is the trimmed text before the first hyphen and the title is the
    trimmed text between the first hyphen and the next one (or the end);
    when there is no later hyphen this is the trimmed text of everything
    after the first hyphen. *)
Theorem deriveArtistTitle_first_two_segments (videoTitle : jsstring) :
  (indexOf videoTitle hyphen > -1)%Z ->
  deriveArtistTitle videoTitle =
    (trim (before_first hyphen videoTitle),
     trim (before_first hyphen (after_first hyphen videoTitle)))
  /\ (~ In hyphen (after_first hyphen videoTitle) ->
      deriveArtistTitle videoTitle = split_on_first hyphen videoTitle).
Proof.
  intros Hidx.
  assert (Hin : In hyphen videoTitle) by now apply indexOf_found.
  destruct (split_two_segments videoTitle hyphen Hin) as [rest Hsplit].
  assert (E : deriveArtistTitle videoTitle =
              (trim (before_first hyphen videoTitle),
               trim (before_first hyphen (after_first hyphen videoTitle)))).
  { unfold deriveArtistTitle.
    destruct (Z.gtb_spec (indexOf videoTitle hyphen) (-1)) as [_|Hle]; [|lia].
    rewrite Hsplit. reflexivity. }
  split; [exact E|].
  intros Hlast. rewrite E. unfold split_on_first.
  now rewrite (before_first_without hyphen (after_first hyphen videoTitle) Hlast).
Qed.

Lemma deriveArtistTitle_first_two_segments_witness :
  (indexOf (lit "A - B - C") hyphen > -1)%Z
  /\ deriveArtistTitle (lit "A - B - C") = (lit "A", lit "B").
Proof.
  assert (H : (indexOf (lit "A - B - C") hyphen > -1)%Z) by (vm_compute; reflexivity).
  split; [exact H|].
  rewrite (proj1 (deriveArtistTitle_first_two_segments (lit "A - B - C") H)).
  vm_compute. reflexivity.
Defined.

(** C2 (as stated, refuted): a title that begins with a hyphen has a hyphen
    and fewer than two non-empty trimmed segments, yet the artist is the
    empty string, not "Unknown", and the title is not the whole cleaned
    title. *)
Lemma leading_hyphen_no_fallback :
  (indexOf (lit "-abc") hyphen > -1)%Z
  /\ (length (nonempty_segments (split (lit "-abc") hyphen)) < 2)%nat
  /\ deriveArtistTitle (lit "-abc") = ([], lit "abc")
  /\ deriveArtistTitle (lit "-abc") <> (lit "Unknown", lit "-abc").
Proof.
  split; [vm_compute; reflexivity|].
  split; [vm_compute; lia|].
  split; [vm_compute; reflexivity | discriminate].
Qed.

(** C2 (amended): for every cleaned title that contains a hyphen no
    fallback applies, however few of its segments are non-empty: the split
    has at least two segments, the artist is the trimmed first segment and
    the title the trimmed second one; with fewer than two non-empty trimmed
    segments the artist or the title is the empty string; the title is
    never the whole cleaned title. *)
Theorem deriveArtistTitle_no_fallback (videoTitle : jsstring) :
  (indexOf videoTitle hyphen > -1)%Z ->
  exists a b rest,
    split videoTitle hyphen = a :: b :: rest
    /\ deriveArtistTitle videoTitle = (trim a, trim b)
    /\ snd (deriveArtistTitle videoTitle) <> videoTitle
    /\ ((length (nonempty_segments (split videoTitle hyphen)) < 2)%nat ->
        trim a = [] \/ trim b = []).
Proof.
  intros Hidx.
  assert (Hin : In hyphen videoTitle) by now apply indexOf_found.
  destruct (split_two_segments videoTitle hyphen Hin) as [rest Hsplit].
  set (a := before_first hyphen videoTitle) in *.
  set (b := before_first hyphen (after_first hyphen videoTitle)) in *.
  assert (E : deriveArtistTitle videoTitle = (trim a, trim b)).
  { unfold deriveArtistTitle.
    destruct (Z.gtb_spec (indexOf videoTitle hyphen) (-1)) as [_|Hle]; [|lia].
    rewrite Hsplit. reflexivity. }
  exists a, b, rest. repeat split; [exact Hsplit | exact E | |].
  - rewrite E. cbn [snd]. intros Heq.
    apply (before_first_free hyphen (after_first hyphen videoTitle)).
    apply trim_incl. fold b. rewrite Heq. exact Hin.
  - rewrite Hsplit. unfold nonempty_segments. cbn [List.filter].
    destruct (trim a) as [|? ?]; [now left|].
    destruct (trim b) as [|? ?]; [now right|].
    cbn [truthy_string length]. lia.
Qed.

Lemma deriveArtistTitle_no_fallback_witness :
  (indexOf (lit "-abc") hyphen > -1)%Z
  /\ exists a b rest,
      split (lit "-abc") hyphen = a :: b :: rest
      /\ deriveArtistTitle (lit "-abc") = (trim a, trim b)
      /\ snd (deriveArtistTitle (lit "-abc")) <> lit "-abc"
      /\ ((length (nonempty_segments (split (lit "-abc") hyphen)) < 2)%nat ->
          trim a = [] \/ trim b = []).
Proof.
  assert (H : (indexOf (lit "-abc") hyphen > -1)%Z) by (vm_compute; reflexivity).
  split; [exact H | exact (deriveArtistTitle_no_fallback (lit "-abc") H)].
Defined.

(* ===================================================================== *)
(** ** Audio bitrate                                                      *)
(* ===================================================================== *)

Section Bitrate.

Implicit Types (formats : list Format.t) (format : Format.t).

(** The bitrate is the one of the first format that exposes a truthy
    [audioBitrate]. *)
Lemma audioBitrateOf_first_exposed formats skipped format rest n :
  formats = skipped ++ format :: rest ->
  Forall (fun g => exposes_bitrate g = false) skipped ->
  Format.audioBitrate format = Some n ->
  truthy_number n = true ->
  audioBitrateOf formats = Ok n.
Proof.
  intros -> Hskip Hn Ht. unfold audioBitrateOf.
  induction Hskip as [|g skipped Hg _ IH]; cbn [app List.find].
  - unfold exposes_bitrate at 1. rewrite Hn, Ht, Hn. reflexivity.
  - rewrite Hg. exact IH.
Qed.

(** Without such a format the property read raises: the default of
    line 170 is not reached. *)
Lemma audioBitrateOf_none_exposed formats :
  Forall (fun g => exposes_bitrate g = false) formats ->
  audioBitrateOf formats = Throw TypeError.
Proof.
  intros H. unfold audioBitrateOf.
  induction H as [|g formats Hg _ IH]; cbn [List.find]; [reflexivity|].
  rewrite Hg. exact IH.
Qed.

(** Whenever a bitrate is produced it is a truthy one read from a format,
    so [DEFAULT_BITRATE] is never the result of the fallback. *)
Lemma audioBitrateOf_ok formats n :
  audioBitrateOf formats = Ok n ->
  exists format,
    In format formats /\ Format.audioBitrate format = Some n
    /\ truthy_number n = true.
Proof.
  unfold audioBitrateOf.
  destruct (List.find exposes_bitrate formats) as [format|] eqn:Hfind;
    [|discriminate].
  apply find_some in Hfind as [Hin Hexp]. unfold exposes_bitrate in Hexp.
  destruct (Format.audioBitrate format) as [m|] eqn:Hm; [|discriminate].
  intros [= <-]. now exists format.
Qed.

End Bitrate.

(** C4 (the code at the failing input): a descriptor whose only format has
    no audio bitrate, downloaded with the quality selector "highest".
    Reading the bitrate raises a TypeError instead of giving 192; in a run
    the exception leaves the response handler, no encoder is started and
    the promise is never settled, even when the events go on. *)
Theorem audioBitrate_missing_raises
    (path_join : jsstring -> jsstring -> jsstring)
    (sanitizeFilename : jsstring -> jsstring)
    (toFixed : number -> nat -> jsstring) (parseFloat : jsstring -> number) :
  let info := sample_info (lit "Artist X - Cool Song") [video_only] in
  let self :=
    self_with (lit "/srv") (lit "abc123")
      {[ "youtubeVideoQuality"%string := VStr (lit "highest") ]} in
  let st :=
    _downloadByInfo path_join sanitizeFilename toFixed parseFloat self info
      [StreamResponse; FfmpegEnd] in
  audioBitrateOf (VideoInfo.formats info) = Throw TypeError
  /\ Run.uncaught st = Some TypeError
  /\ Run.encoder st = None
  /\ Run.settled st = None.
Proof.
  cbv zeta. split; [reflexivity|].
  unfold _downloadByInfo, prepare, outputFile.
  cbn. repeat split.
Qed.

(* ===================================================================== *)
(** ** Options                                                            *)
(* ===================================================================== *)

(** C5 (as stated, refuted): an options object that mentions [outputPath]
    with the value [undefined] does not keep the default output directory:
    the resolved field is [undefined]. *)
Lemma explicit_undefined_overrides_default :
  let options : object := {[ "outputPath"%string := VUndefined ]} in
  get options "outputPath" = VUndefined
  /\ get (resolveOptions (lit "/srv") (Some options)) "outputPath" = VUndefined
  /\ get (resolveOptions (lit "/srv") (Some options)) "outputPath"
     <> get (DEFAULT_OPTIONS (lit "/srv")) "outputPath".
Proof.
  cbv zeta. split; [reflexivity|]. split; [reflexivity|].
  vm_compute. discriminate.
Qed.

(** C5 (amended): for every caller-supplied options object (or none), the
    resolved configuration is the default struct overlaid with the caller's
    own properties: a property the caller's object does not have keeps its
    default (output directory = current working directory, quality =
    "highestaudio", sampling interval = 1000, allowWebm = false), and a
    property it has, be its value [undefined], replaces the default. *)
Theorem resolveOptions_overlay (cwd : jsstring) (options : option object)
    (k : string) :
  resolveOptions cwd options !! k =
    match default ∅ options !! k with
    | Some v => Some v
    | None => DEFAULT_OPTIONS cwd !! k
    end
  /\ DEFAULT_OPTIONS cwd !! "outputPath"%string = Some (VStr cwd)
  /\ DEFAULT_OPTIONS cwd !! "youtubeVideoQuality"%string
     = Some (VStr (lit "highestaudio"))
  /\ DEFAULT_OPTIONS cwd !! "progressTimeout"%string = Some (VNum 1000%float)
  /\ DEFAULT_OPTIONS cwd !! "allowWebm"%string = Some (VBool false).
Proof.
  split; [|repeat split].
  unfold resolveOptions, Object_assign.
  rewrite (right_id_L ∅ (∪)), lookup_union.
  destruct (default ∅ options !! k) as [v|];
    destruct (DEFAULT_OPTIONS cwd !! k); reflexivity.
Qed.

(* ===================================================================== *)
(** ** The event listeners                                                *)
(* ===================================================================== *)

Section RunFacts.

Variable toFixed : number -> nat -> jsstring.
Variable parseFloat : jsstring -> number.
Variable self : Self.t.
Variable info : VideoInfo.t.
Variable p : Prepared.t.

Local Abbreviation handle := (step toFixed parseFloat self info p).
Local Abbreviation run := (deliver toFixed parseFloat self info p).
Local Abbreviation captured := (captured toFixed parseFloat).
Local Abbreviation stats_inv := (stats_inv toFixed parseFloat).

Lemma settle_settled o st o' :
  Run.settled st = Some o' -> settle o st = st.
Proof. intros H. unfold settle. rewrite H. reflexivity. Qed.

Lemma callback_settled err data st o :
  Run.settled st = Some o -> callback err data st = st.
Proof.
  intros H. unfold callback.
  destruct (truthy err); eapply settle_settled; exact H.
Qed.

Lemma settle_keeps o st :
  Run.stats (settle o st) = Run.stats st
  /\ Run.emitted (settle o st) = Run.emitted st.
Proof. unfold settle. destruct (Run.settled st); split; reflexivity. Qed.

Lemma callback_keeps err data st :
  Run.stats (callback err data st) = Run.stats st
  /\ Run.emitted (callback err data st) = Run.emitted st.
Proof. unfold callback. destruct (truthy err); apply settle_keeps. Qed.

(** A settled promise stays as it is. *)
Lemma step_settled_stable st ev o :
  Run.settled st = Some o -> Run.settled (handle st ev) = Some o.
Proof.
  intros H. unfold step.
  destruct (Run.uncaught st); [exact H|].
  destruct ev, (Run.encoder st);
    rewrite ?(callback_settled _ _ _ _ H); try exact H;
    destruct (startEncoder self info p); exact H.
Qed.

(** Only the end of the encoder resolves the promise with a result, and
    the result carries the [stats] variable as it is at that moment. *)
Lemma step_resolves st ev r :
  Run.settled st = None ->
  Run.settled (handle st ev) = Some (Resolved (Some r)) ->
  ev = FfmpegEnd /\ r = resultObj self p (Run.stats st).
Proof.
  intros Hnone. unfold step.
  destruct (Run.uncaught st); [congruence|].
  destruct ev, (Run.encoder st); try congruence;
    unfold callback, settle; rewrite ?Hnone;
    try (destruct (truthy err); cbn [Run.settled]; congruence);
    try (destruct (startEncoder self info p); cbn [Run.settled]; congruence).
  cbn [truthy Run.settled]. intros [= <-]. split; reflexivity.
Qed.

Lemma onProgress_complete stats e :
  complete e ->
  exists s, onProgress toFixed parseFloat stats (IProgress.progress e) = Some s
            /\ captured s e.
Proof.
  unfold complete, Spec.captured, onProgress. intros ->. eexists. split; reflexivity.
Qed.

Lemma onProgress_incomplete stats e :
  ~ complete e ->
  onProgress toFixed parseFloat stats (IProgress.progress e) = stats.
Proof.
  unfold complete, onProgress. intros H.
  destruct (strict_eq_number _ _); [exfalso; now apply H | reflexivity].
Qed.

Lemma complete_dec e : {complete e} + {~ complete e}.
Proof.
  unfold complete.
  destruct (strict_eq_number _ _); [left; reflexivity | right; discriminate].
Qed.

Lemma step_stats_inv st ev : stats_inv st -> stats_inv (handle st ev).
Proof.
  intros Hinv. unfold step.
  destruct (Run.uncaught st); [exact Hinv|].
  destruct ev, (Run.encoder st); try exact Hinv;
    try (unfold Spec.stats_inv in *;
         destruct (callback_keeps err None st) as [-> ->]; exact Hinv);
    try (destruct (startEncoder self info p); exact Hinv).
  - set (e := {| IProgress.videoId := Self.videoId self;
                 IProgress.progress := progress |}).
    unfold Spec.stats_inv in *. cbn [Run.stats Run.emitted].
    change progress with (IProgress.progress e).
    destruct (complete_dec e) as [Hc|Hc].
    + destruct (onProgress_complete (Run.stats st) e Hc) as [s [-> Hs]].
      exists e. split; [apply in_or_app; right; now left | now split].
    + rewrite (onProgress_incomplete _ e Hc).
      destruct (Run.stats st) as [s|].
      * destruct Hinv as [e' [Hin He']].
        exists e'. split; [apply in_or_app; now left | exact He'].
      * apply Forall_app. split; [exact Hinv | now constructor].
  - unfold Spec.stats_inv in *.
    destruct (callback_keeps VNull (Some (resultObj self p (Run.stats st))) st)
      as [-> ->].
    exact Hinv.
Qed.

Lemma run_snoc events ev : run (events ++ [ev]) = handle (run events) ev.
Proof. unfold deliver. rewrite fold_left_app. reflexivity. Qed.

Lemma run_stats_inv events : stats_inv (run events).
Proof.
  induction events as [|ev events IH] using rev_ind.
  - unfold Spec.stats_inv, deliver. cbn. constructor.
  - rewrite run_snoc. now apply step_stats_inv.
Qed.

(** A resolved run was resolved by one [end] of the encoder, reached with
    the promise still pending. *)
Lemma run_resolved events r :
  Run.settled (run events) = Some (Resolved (Some r)) ->
  exists before after,
    events = before ++ FfmpegEnd :: after
    /\ Run.settled (run before) = None
    /\ r = resultObj self p (Run.stats (run before)).
Proof.
  induction events as [|ev events IH] using rev_ind.
  - unfold deliver. cbn. discriminate.
  - rewrite run_snoc. intros H.
    destruct (Run.settled (run events)) as [o|] eqn:Hs.
    + rewrite (step_settled_stable _ ev o Hs) in H. injection H as ->.
      destruct (IH eq_refl) as (before & after & -> & Hb & Hr).
      exists before, (after ++ [ev]). split; [|now split].
      rewrite <- app_assoc. reflexivity.
    + destruct (step_resolves _ ev r Hs H) as [-> Hr].
      exists events, []. now repeat split.
Qed.

Lemma stats_inv_iff st :
  stats_inv st ->
  (is_Some (Run.stats st) <-> Exists complete (Run.emitted st))
  /\ (forall s, Run.stats st = Some s ->
        exists e, In e (Run.emitted st) /\ complete e /\ captured s e).
Proof.
  unfold Spec.stats_inv. destruct (Run.stats st) as [s|].
  - intros (e & Hin & Hc & Hs). split.
    + split; [intros _; apply List.Exists_exists; eauto | eauto].
    + intros s' [= <-]. eauto.
  - intros Hall. split; [|discriminate].
    split; [intros [? [=]]|].
    intros Hex. apply List.Exists_exists in Hex as (e & Hin & Hc).
    rewrite List.Forall_forall in Hall. exfalso. exact (Hall e Hin Hc).
Qed.

(** Every progress event emitted carries a sample that was delivered. *)
Lemma run_emitted_delivered events :
  Forall (fun e => In (StrProgress (IProgress.progress e)) events)
    (Run.emitted (run events)).
Proof.
  induction events as [|ev events IH] using rev_ind.
  - unfold deliver. cbn. constructor.
  - rewrite run_snoc.
    assert (Hmono : Forall
              (fun e => In (StrProgress (IProgress.progress e)) (events ++ [ev]))
              (Run.emitted (run events))).
    { eapply List.Forall_impl; [|exact IH].
      intros e He. apply in_or_app. now left. }
    unfold step.
    destruct (Run.uncaught (run events)); [exact Hmono|].
    destruct ev, (Run.encoder (run events)); try exact Hmono;
      try (destruct (callback_keeps err None (run events)) as [_ ->]; exact Hmono);
      try (destruct (startEncoder self info p); exact Hmono).
    + cbn [Run.emitted]. apply Forall_app. split; [exact Hmono|].
      constructor; [|constructor].
      cbn [IProgress.progress]. apply in_or_app. right. now left.
    + destruct (callback_keeps VNull
                  (Some (resultObj self p (Run.stats (run events)))) (run events))
        as [_ ->].
      exact Hmono.
Qed.

End RunFacts.

(* ===================================================================== *)
(** ** Output path                                                        *)
(* ===================================================================== *)

Section OutputFile.

Variable path_join : jsstring -> jsstring -> jsstring.

(** The file name of a prepared run is the one [outputFile] computes. *)
Lemma prepare_fileName sanitizeFilename self info p :
  prepare path_join sanitizeFilename self info = Ok p ->
  outputFile path_join sanitizeFilename (Self.options self)
    (cleanFileName (VideoDetails.title (VideoInfo.videoDetails info)))
    (VideoInfo.videoDetails info) = Ok (Prepared.fileName p).
Proof.
  unfold prepare.
  destruct (thumbnailOf _) as [th|e]; [|discriminate].
  cbn [mbind result_bind].
  destruct (deriveArtistTitle _) as [artist title].
  destruct (outputFile _ _ _ _ _) as [f|e]; [|discriminate].
  intros [= <-]. reflexivity.
Qed.

(** The file of a result is the one [outputFile] computes. *)
Lemma resolved_file sanitizeFilename toFixed parseFloat self info events r :
  Run.settled
    (_downloadByInfo path_join sanitizeFilename toFixed parseFloat self info events)
  = Some (Resolved (Some r)) ->
  outputFile path_join sanitizeFilename (Self.options self)
    (cleanFileName (VideoDetails.title (VideoInfo.videoDetails info)))
    (VideoInfo.videoDetails info) = Ok (IResult.file r).
Proof.
  unfold _downloadByInfo.
  destruct (prepare path_join sanitizeFilename self info) as [p|e] eqn:Hp;
    [|cbn; discriminate].
  intros H.
  destruct (run_resolved toFixed parseFloat self info p events r H)
    as (before & after & _ & _ & ->).
  cbn [IResult.file resultObj]. now apply prepare_fileName.
Qed.

Lemma bind_ok {A B} (m : result A) (k : A -> B) (b : B) :
  (a ← m; Ok (k a)) = Ok b -> exists a, m = Ok a /\ b = k a.
Proof.
  destruct m as [a|e]; cbn [mbind result_bind]; [|discriminate].
  intros [= <-]. now exists a.
Qed.

(** C6: in every run where the caller gives no file name and the sanitized
    cleaned title is the empty string, the output file is the media ID of
    the descriptor followed by ".mp3", joined to the output directory; the
    result of a successful run names that file. *)
Theorem empty_title_falls_back_to_videoId sanitizeFilename
    (self : Self.t) (info : VideoInfo.t) :
  let d := VideoInfo.videoDetails info in
  let videoTitle := cleanFileName (VideoDetails.title d) in
  nullish (get (Self.options self) "fileName") = true ->
  sanitizeFilename videoTitle = [] ->
  outputFile path_join sanitizeFilename (Self.options self) videoTitle d =
    (dir ← outputDir (Self.options self);
     Ok (path_join dir (VideoDetails.videoId d ++ lit ".mp3")))
  /\ forall toFixed parseFloat events r,
      Run.settled
        (_downloadByInfo path_join sanitizeFilename toFixed parseFloat self info
           events)
      = Some (Resolved (Some r)) ->
      exists dir,
        outputDir (Self.options self) = Ok dir
        /\ IResult.file r = path_join dir (VideoDetails.videoId d ++ lit ".mp3").
Proof.
  cbv zeta. intros Hnone Hempty.
  assert (E : outputFile path_join sanitizeFilename (Self.options self)
                (cleanFileName (VideoDetails.title (VideoInfo.videoDetails info)))
                (VideoInfo.videoDetails info)
              = (dir ← outputDir (Self.options self);
                 Ok (path_join dir
                       (VideoDetails.videoId (VideoInfo.videoDetails info)
                        ++ lit ".mp3")))).
  { unfold outputFile, coalesce.
    rewrite Hnone, Hempty. cbn [or_string truthy_string as_string].
    destruct (outputDir (Self.options self)); reflexivity. }
  split; [exact E|].
  intros toFixed parseFloat events r H.
  apply resolved_file in H. rewrite E in H.
  now apply bind_ok in H.
Qed.

(** C9: in every run where the caller gives a [fileName] string, the output
    file is that string joined to the output directory: the sanitizer, the
    cleaned title and the media ID play no part, and no ".mp3" is added;
    the result of a successful run names that file. *)
Theorem explicit_fileName_used_verbatim (self : Self.t) (name : jsstring) :
  get (Self.options self) "fileName" = VStr name ->
  (forall sanitizeFilename videoTitle d,
      outputFile path_join sanitizeFilename (Self.options self) videoTitle d =
        (dir ← outputDir (Self.options self); Ok (path_join dir name)))
  /\ forall sanitizeFilename toFixed parseFloat info events r,
      Run.settled
        (_downloadByInfo path_join sanitizeFilename toFixed parseFloat self info
           events)
      = Some (Resolved (Some r)) ->
      exists dir,
        outputDir (Self.options self) = Ok dir
        /\ IResult.file r = path_join dir name.
Proof.
  intros Hname.
  assert (E : forall sanitizeFilename videoTitle d,
             outputFile path_join sanitizeFilename (Self.options self) videoTitle d =
               (dir ← outputDir (Self.options self); Ok (path_join dir name))).
  { intros sanitizeFilename videoTitle d. unfold outputFile, coalesce.
    rewrite Hname. cbn [nullish as_string].
    destruct (outputDir (Self.options self)); reflexivity. }
  split; [exact E|].
  intros sanitizeFilename toFixed parseFloat info events r H.
  apply resolved_file in H. rewrite E in H.
  now apply bind_ok in H.
Qed.

End OutputFile.

Lemma empty_title_falls_back_to_videoId_witness :
  let self := plain_self (lit "/srv") (lit "abc123") in
  let info := sample_info (lit "?:;") [audio_128] in
  let d := VideoInfo.videoDetails info in
  nullish (get (Self.options self) "fileName") = true
  /\ sanitize_nothing (cleanFileName (VideoDetails.title d)) = []
  /\ outputFile join_slash sanitize_nothing (Self.options self)
       (cleanFileName (VideoDetails.title d)) d
     = Ok (lit "/srv/abc123.mp3").
Proof.
  cbv zeta.
  assert (Hnone : nullish (get (Self.options (plain_self (lit "/srv") (lit "abc123")))
                             "fileName") = true) by reflexivity.
  assert (Hempty : sanitize_nothing
                     (cleanFileName
                        (VideoDetails.title
                           (VideoInfo.videoDetails
                              (sample_info (lit "?:;") [audio_128]))))
                   = []) by reflexivity.
  split; [exact Hnone|]. split; [exact Hempty|].
  rewrite (proj1 (empty_title_falls_back_to_videoId join_slash sanitize_nothing
                    _ _ Hnone Hempty)).
  reflexivity.
Defined.

Lemma explicit_fileName_used_verbatim_witness :
  let self :=
    self_with (lit "/srv") (lit "abc123")
      {[ "fileName"%string := VStr (lit "a?b") ]} in
  get (Self.options self) "fileName" = VStr (lit "a?b")
  /\ outputFile join_slash sanitize_nothing (Self.options self) (lit "Cool Song")
       (VideoInfo.videoDetails (sample_info (lit "Cool Song") []))
     = Ok (lit "/srv/a?b").
Proof.
  cbv zeta.
  assert (Hname : get (Self.options
                         (self_with (lit "/srv") (lit "abc123")
                            {[ "fileName"%string := VStr (lit "a?b") ]}))
                    "fileName" = VStr (lit "a?b")) by reflexivity.
  split; [exact Hname|].
  rewrite (proj1 (explicit_fileName_used_verbatim join_slash _ _ Hname)).
  reflexivity.
Defined.

(* ===================================================================== *)
(** ** Thumbnail                                                          *)
(* ===================================================================== *)

Example thumbnailOf_first_url :
  thumbnailOf (VideoInfo.videoDetails (sample_info (lit "t") [])) = Ok (Some (lit "t.jpg")).
Proof. reflexivity. Qed.

Example thumbnailOf_absent :
  thumbnailOf {| VideoDetails.title := lit "t"; VideoDetails.videoId := lit "abc123";
                 VideoDetails.thumbnails := None; VideoDetails.thumbnail := None |}
  = Ok None.
Proof. reflexivity. Qed.

Example thumbnailOf_empty_array :
  thumbnailOf {| VideoDetails.title := lit "t"; VideoDetails.videoId := lit "abc123";
                 VideoDetails.thumbnails := Some []; VideoDetails.thumbnail := None |}
  = Throw TypeError.
Proof. reflexivity. Qed.

(** C10: the thumbnail derivation is partial. With a non-empty [thumbnails]
    array it gives the url of the first entry; with an empty array, which
    is truthy, reading the url of the missing first entry raises a
    TypeError instead of giving an absent thumbnail, and the run is
    rejected with it whatever events follow. *)
Theorem thumbnailOf_empty_array_raises (d : VideoDetails.t) :
  (forall t0 ts,
      VideoDetails.thumbnails d = Some (t0 :: ts) ->
      thumbnailOf d = Ok (Some (Thumbnail.url t0)))
  /\ (VideoDetails.thumbnails d = Some [] ->
      thumbnailOf d = Throw TypeError
      /\ forall path_join sanitizeFilename toFixed parseFloat self formats events,
          Run.settled
            (_downloadByInfo path_join sanitizeFilename toFixed parseFloat self
               {| VideoInfo.videoDetails := d; VideoInfo.formats := formats |}
               events)
          = Some (Rejected (Thrown TypeError))).
Proof.
  split.
  - intros t0 ts H. unfold thumbnailOf. rewrite H. reflexivity.
  - intros H.
    assert (E : thumbnailOf d = Throw TypeError)
      by (unfold thumbnailOf; rewrite H; reflexivity).
    split; [exact E|]. intros.
    unfold _downloadByInfo, prepare. cbn [VideoInfo.videoDetails].
    rewrite E. reflexivity.
Qed.

(* ===================================================================== *)
(** ** Output directory                                                   *)
(* ===================================================================== *)

Section EnsureDir.

Variable resolve_path : jsstring -> option path.

Lemma existsSync_resolved (fs : FS) (s : jsstring) (p : path) :
  resolve_path s = Some p ->
  existsSync resolve_path fs (VStr s) = bool_decide (is_Some (node_at fs p)).
Proof. intros H. unfold existsSync. rewrite H. reflexivity. Qed.

Lemma node_at_created (fs : FS) (p : path) :
  node_at fs p = None -> node_at (<[p := Dir]> fs) p = Some Dir.
Proof.
  destruct p as [|c p]; [discriminate|]. intros _.
  cbn [node_at]. apply lookup_insert_eq.
Qed.

(** C8 (amended): the directory check treats an existing path as success
    and leaves the file system as it is; a missing directory is created
    with a single, non-recursive [mkdir], which succeeds when the parent is
    a directory and fails with ENOENT when the parent is missing. *)
Theorem ensureDir_single_level (options : object) (fs : FS)
    (s : jsstring) (p : path) :
  coalesce (get options "outputPath") (VStr []) = VStr s ->
  resolve_path s = Some p ->
  (is_Some (node_at fs p) -> _ensureDir resolve_path options fs = Ok fs)
  /\ (node_at fs p = None -> node_at fs (parent p) = Some Dir ->
      _ensureDir resolve_path options fs = Ok (<[p := Dir]> fs)
      /\ node_at (<[p := Dir]> fs) p = Some Dir)
  /\ (node_at fs p = None -> node_at fs (parent p) = None ->
      _ensureDir resolve_path options fs = Throw (SystemError "ENOENT")).
Proof.
  intros Hdir Hres. unfold _ensureDir. rewrite Hdir.
  rewrite (existsSync_resolved fs s p Hres).
  unfold mkdirSync, mkdir_at. rewrite Hres.
  split; [|split].
  - intros Hex. rewrite bool_decide_eq_true_2 by exact Hex. reflexivity.
  - intros Hmiss Hpar.
    rewrite bool_decide_eq_false_2 by (rewrite Hmiss; apply is_Some_None).
    cbn [negb]. rewrite Hmiss, Hpar.
    split; [reflexivity | now apply node_at_created].
  - intros Hmiss Hpar.
    rewrite bool_decide_eq_false_2 by (rewrite Hmiss; apply is_Some_None).
    cbn [negb]. rewrite Hmiss, Hpar. reflexivity.
Qed.

End EnsureDir.

(** C8 (as stated, refuted): with only [/srv] on disk and the output path
    [/srv/a/b], whose parent is missing, the check raises ENOENT: nothing
    is created recursively. *)
Lemma ensureDir_missing_parent_raises :
  let fs : FS := {[ [lit "srv"] := Dir ]} in
  let options : object :=
    resolveOptions (lit "/srv") (Some {[ "outputPath"%string := VStr (lit "/srv/a/b") ]}) in
  resolve_absolute (lit "/srv/a/b") = Some [lit "srv"; lit "a"; lit "b"]
  /\ node_at fs [lit "srv"; lit "a"; lit "b"] = None
  /\ node_at fs [lit "srv"; lit "a"] = None
  /\ _ensureDir resolve_absolute options fs = Throw (SystemError "ENOENT")
  /\ ~ exists fs', _ensureDir resolve_absolute options fs = Ok fs'.
Proof.
  cbv zeta.
  assert (E : _ensureDir resolve_absolute
                (resolveOptions (lit "/srv")
                   (Some {[ "outputPath"%string := VStr (lit "/srv/a/b") ]}))
                ({[ [lit "srv"] := Dir ]} : FS)
              = Throw (SystemError "ENOENT")) by (vm_compute; reflexivity).
  split; [reflexivity|]. split; [reflexivity|]. split; [reflexivity|].
  split; [exact E|]. intros [fs' H]. rewrite E in H. discriminate.
Qed.

Lemma ensureDir_single_level_witness :
  let fs : FS := {[ [lit "srv"] := Dir ]} in
  let at_ (s : jsstring) : object :=
    resolveOptions (lit "/srv") (Some {[ "outputPath"%string := VStr s ]}) in
  _ensureDir resolve_absolute (at_ (lit "/srv")) fs = Ok fs
  /\ _ensureDir resolve_absolute (at_ (lit "/srv/out")) fs
     = Ok (<[ [lit "srv"; lit "out"] := Dir ]> fs)
  /\ _ensureDir resolve_absolute (at_ (lit "/srv/a/b")) fs
     = Throw (SystemError "ENOENT").
Proof.
  cbv zeta.
  split; [|split].
  - apply (ensureDir_single_level resolve_absolute _ _ (lit "/srv") [lit "srv"]);
      [reflexivity | reflexivity | vm_compute; eauto].
  - apply (ensureDir_single_level resolve_absolute _ _ (lit "/srv/out")
             [lit "srv"; lit "out"]);
      [reflexivity | reflexivity | reflexivity | reflexivity].
  - apply (ensureDir_single_level resolve_absolute _ _ (lit "/srv/a/b")
             [lit "srv"; lit "a"; lit "b"]);
      [reflexivity | reflexivity | reflexivity | reflexivity].
Defined.

(* ===================================================================== *)
(** ** Result statistics                                                  *)
(* ===================================================================== *)
(** C7: in every successful run the result was produced at an [end] of the
    encoder reached with the promise pending, and its [stats] field is
    populated if and only if a progress sample with percentage exactly 100
    was emitted before that point; populated statistics are the ones read
    from such a sample, and without one the field is absent. *)
Theorem stats_iff_complete_sample
    (path_join : jsstring -> jsstring -> jsstring)
    (sanitizeFilename : jsstring -> jsstring)
    (toFixed : number -> nat -> jsstring) (parseFloat : jsstring -> number)
    (self : Self.t) (info : VideoInfo.t) (events : list event) (r : IResult.t) :
  Run.settled
    (_downloadByInfo path_join sanitizeFilename toFixed parseFloat self info events)
  = Some (Resolved (Some r)) ->
  exists before after,
    events = before ++ FfmpegEnd :: after
    /\ let st :=
         _downloadByInfo path_join sanitizeFilename toFixed parseFloat self info
           before in
       Run.settled st = None
       /\ (is_Some (IResult.stats r) <-> Exists complete (Run.emitted st))
       /\ (IResult.stats r = None <-> Forall (fun e => ~ complete e) (Run.emitted st))
       /\ (forall s, IResult.stats r = Some s ->
             exists e, In e (Run.emitted st) /\ complete e
                       /\ captured toFixed parseFloat s e)
       /\ Forall (fun e => In (StrProgress (IProgress.progress e)) before)
            (Run.emitted st).
Proof.
  unfold _downloadByInfo.
  destruct (prepare path_join sanitizeFilename self info) as [p|e];
    [|cbn; discriminate].
  intros H.
  destruct (run_resolved toFixed parseFloat self info p events r H)
    as (before & after & -> & Hpending & ->).
  exists before, after. split; [reflexivity|]. cbv zeta.
  cbn [IResult.stats resultObj].
  pose proof (run_stats_inv toFixed parseFloat self info p before) as Hinv.
  destruct (stats_inv_iff toFixed parseFloat _ Hinv) as [Hiff Hfrom].
  split; [exact Hpending|]. split; [exact Hiff|].
  split; [|split; [exact Hfrom | apply run_emitted_delivered]].
  unfold stats_inv in Hinv.
  destruct (Run.stats (deliver toFixed parseFloat self info p before)) as [s|].
  - split; [discriminate|]. intros Hall.
    destruct Hinv as (e & Hin & Hc & _).
    rewrite List.Forall_forall in Hall. exfalso. exact (Hall e Hin Hc).
  - split; [intros _; exact Hinv | reflexivity].
Qed.

Lemma stats_iff_complete_sample_witness :
  (exists r,
      Run.settled complete_run = Some (Resolved (Some r))
      /\ is_Some (IResult.stats r))
  /\ (exists r,
        Run.settled incomplete_run = Some (Resolved (Some r))
        /\ IResult.stats r = None).
Proof.
  split.
  - destruct (Run.settled complete_run) as [[[r|]|]|] eqn:H;
      try (vm_compute in H; discriminate).
    exists r. split; [reflexivity|].
    destruct (stats_iff_complete_sample _ _ _ _ _ _ _ r H)
      as (before & after & Hev & _ & Hiff & _).
    apply Hiff.
    assert (Hb : before = firstn 3 [ StreamResponse;
                   StrProgress (sample_at 50%float 500000%float);
                   StrProgress (sample_at 100%float 1000000%float);
                   FfmpegEnd ]).
    { destruct before as [|e1 [|e2 [|e3 [|e4 before]]]];
        cbn in Hev; try discriminate; [now inversion Hev|].
      exfalso. injection Hev as _ _ _ _ Hev.
      destruct before; discriminate. }
    subst before. apply Exists_cons_tl, Exists_cons_hd. reflexivity.
  - destruct (Run.settled incomplete_run) as [[[r|]|]|] eqn:H;
      try (vm_compute in H; discriminate).
    exists r. split; [reflexivity|].
    vm_compute in H. now inversion H.
Defined.

(* ===================================================================== *)
(** ** A whole run                                                        *)
(* ===================================================================== *)

(** With [/srv] on disk, construction without options succeeds, leaves the
    file system as it is and yields the instance with the default options. *)
Example constructor_default :
  constructor (lit "/srv") resolve_absolute (lit "abc123") None
    ({[ [lit "srv"] := Dir ]} : FS)
  = Ok (plain_self (lit "/srv") (lit "abc123"), {[ [lit "srv"] := Dir ]}).
Proof. vm_compute. reflexivity. Qed.

(** Scenario D of the specification, with the file and tags of scenario A:
    the final sample at 100 percent gives the transferred bytes of the
    result. *)
Example scenario_D :
  match Run.settled complete_run with
  | Some (Resolved (Some r)) =>
      IResultStats.transferredBytes <$> IResult.stats r = Some 1000000%float
      /\ IResult.file r = lit "/srv/Artist X - Cool Song.mp3"
      /\ IResult.artist r = lit "Artist X"
      /\ IResult.title r = lit "Cool Song"
      /\ IResult.youtubeUrl r = lit "https://www.youtube.com/watch?v=abc123"
  | _ => False
  end.
Proof. vm_compute. repeat split. Qed.

(** The encoder of that run is started with the bitrate of the first format
    that has one, and with the tags after the id3 version. *)
Example scenario_encoder :
  Encoder.audioBitrate <$> Run.encoder complete_run = Some 128%float
  /\ Encoder.outputOptions <$> Run.encoder complete_run
     = Some [ VStr (lit "-id3v2_version"); VStr (lit "4");
              VStr (lit "-metadata"); VStr (lit "title=Cool Song");
              VStr (lit "-metadata"); VStr (lit "artist=Artist X") ].
Proof. vm_compute. split; reflexivity. Qed.

(* ===================================================================== *)
(** ** Further properties: title cleaning and the split                   *)
(* ===================================================================== *)

Section CleaningFacts.

Implicit Types (s : jsstring) (c x : char).

(** Cleaning as a filter, for the proofs below. *)
Lemma cleanFileName_as_filter s :
  cleanFileName s = List.filter (fun x => negb (removed_by_code x)) s.
Proof.
  unfold cleanFileName, CHAR_REPLACES.
  cbn [fold_left fst snd].
  rewrite !replace_global_remove, !filter_twice.
  apply filter_ext. intros a. unfold removed_by_code.
  destruct (a =? code "'"), (a =? code "|"), (a =? code "/"),
    (a =? code "?"), (a =? code ":"), (a =? code ";"); reflexivity.
Qed.

Lemma filter_fixed_iff (f : char -> bool) s :
  List.filter f s = s <-> Forall (fun x => f x = true) s.
Proof.
  induction s as [|a s IH]; cbn [List.filter].
  - split; [constructor | reflexivity].
  - destruct (f a) eqn:Ha.
    + split.
      * intros [= E]. constructor; [exact Ha | now apply IH].
      * intros H. inversion H; subst. f_equal. now apply IH.
    + split.
      * intros E. exfalso.
        assert (Hlen : (length (List.filter f s) <= length s)%nat)
          by apply filter_length_le.
        rewrite E in Hlen. cbn [length] in Hlen. lia.
      * intros H. inversion H; subst. congruence.
Qed.

Lemma trimStart_head s x r : trimStart s = x :: r -> isWhiteSpace x = false.
Proof.
  induction s as [|a s IH]; cbn [trimStart]; [discriminate|].
  destruct (isWhiteSpace a) eqn:Ha; [exact IH|].
  intros [= <- <-]. exact Ha.
Qed.

(** [trimStart] drops a prefix. *)
Lemma trimStart_suffix s : exists pre, s = pre ++ trimStart s.
Proof.
  induction s as [|a s [pre IH]]; cbn [trimStart]; [now exists []|].
  destruct (isWhiteSpace a); [|now exists []].
  exists (a :: pre). cbn [app]. now rewrite <- IH.
Qed.

(** A trimmed string starts and ends with something else than white
    space. *)
Lemma trim_trimmed s : trimmed (trim s).
Proof.
  unfold trim, trimEnd.
  set (u := trimStart s).
  destruct (trimStart (rev u)) as [|y w] eqn:Hw; [exact I|].
  assert (Hy : isWhiteSpace y = false) by (eapply trimStart_head; exact Hw).
  destruct (trimStart_suffix (rev u)) as [pre Hpre]. rewrite Hw in Hpre.
  assert (Hu : u = rev w ++ y :: rev pre).
  { rewrite <- (rev_involutive u), Hpre, rev_app_distr.
    cbn [rev]. rewrite <- app_assoc. reflexivity. }
  cbn [rev]. unfold trimmed.
  destruct (rev w ++ [y]) as [|x t] eqn:Hx; [exact I|].
  split.
  - destruct (rev w) as [|x' t'] eqn:Hr.
    + cbn [app] in Hx. injection Hx as <- _. exact Hy.
    + cbn [app] in Hx. injection Hx as <- _.
      cbn [app] in Hu. apply (trimStart_head s x' (t' ++ y :: rev pre)).
      exact Hu.
  - rewrite <- Hx. rewrite last_last. exact Hy.
Qed.

End CleaningFacts.

(** X1: a code unit occurs in the cleaned title exactly when it occurs in
    the title and is none of the six removed characters. *)
Theorem cleanFileName_elem (fileName : jsstring) (c : char) :
  In c (cleanFileName fileName) <-> In c fileName /\ kept c.
Proof.
  rewrite cleanFileName_as_filter, filter_In. unfold kept.
  destruct (removed_by_code c); cbn [negb]; intuition congruence.
Qed.

(** X2: cleaning twice is cleaning once. *)
Theorem cleanFileName_idempotent (fileName : jsstring) :
  cleanFileName (cleanFileName fileName) = cleanFileName fileName.
Proof.
  rewrite !cleanFileName_as_filter, filter_twice.
  apply filter_ext. intros a. now destruct (removed_by_code a).
Qed.

(** X3: cleaning works character by character: the cleaned concatenation
    is the concatenation of the cleaned parts. *)
Theorem cleanFileName_app (a b : jsstring) :
  cleanFileName (a ++ b) = cleanFileName a ++ cleanFileName b.
Proof. rewrite !cleanFileName_as_filter. apply List.filter_app. Qed.

(** X4: cleaning never lengthens a title, and it leaves a title as it is
    exactly when the title has none of the six removed characters. *)
Theorem cleanFileName_fixed_iff (fileName : jsstring) :
  (length (cleanFileName fileName) <= length fileName)%nat
  /\ (cleanFileName fileName = fileName <-> Forall kept fileName).
Proof.
  rewrite cleanFileName_as_filter. split; [apply filter_length_le|].
  rewrite filter_fixed_iff. unfold kept.
  split; intros H; eapply List.Forall_impl; try exact H;
    intros a; cbn beta; destruct (removed_by_code a); cbn [negb]; congruence.
Qed.

(** X5: cleaning keeps hyphens, so whether the title is split is decided by
    the raw title: the cleaned title has a hyphen exactly when the raw one
    has. *)
Theorem hyphen_survives_cleaning (title : jsstring) :
  (indexOf (cleanFileName title) hyphen > -1)%Z
  <-> (indexOf title hyphen > -1)%Z.
Proof.
  rewrite !indexOf_found, cleanFileName_as_filter, filter_In.
  assert (H : removed_by_code hyphen = false) by reflexivity.
  rewrite H. cbn [negb]. tauto.
Qed.

(** X6: a cleaned title without a hyphen is the derived title as it stands,
    white space included, and the artist is "Unknown". *)
Theorem no_hyphen_title_verbatim (videoTitle : jsstring) :
  ~ In hyphen videoTitle ->
  deriveArtistTitle videoTitle = (lit "Unknown", videoTitle).
Proof.
  intros Hn. unfold deriveArtistTitle.
  destruct (Z.gtb_spec (indexOf videoTitle hyphen) (-1)) as [Hgt|_];
    [|reflexivity].
  exfalso. apply Hn. apply indexOf_found. lia.
Qed.

Lemma no_hyphen_title_verbatim_witness :
  ~ In hyphen (lit "  Cool Song ")
  /\ deriveArtistTitle (lit "  Cool Song ") = (lit "Unknown", lit "  Cool Song ").
Proof.
  assert (Hn : ~ In hyphen (lit "  Cool Song ")).
  { intros H. apply indexOf_found in H. vm_compute in H. discriminate. }
  split; [exact Hn | exact (no_hyphen_title_verbatim _ Hn)].
Defined.

(** X7: when the cleaned title has a hyphen, the derived artist and title
    contain no hyphen and neither starts nor ends with white space. *)
Theorem derived_fields_trimmed (videoTitle : jsstring) :
  (indexOf videoTitle hyphen > -1)%Z ->
  let '(artist, title) := deriveArtistTitle videoTitle in
  trimmed artist /\ trimmed title
  /\ ~ In hyphen artist /\ ~ In hyphen title.
Proof.
  intros Hidx.
  assert (Hin : In hyphen videoTitle) by now apply indexOf_found.
  destruct (split_two_segments videoTitle hyphen Hin) as [rest Hsplit].
  unfold deriveArtistTitle.
  destruct (Z.gtb_spec (indexOf videoTitle hyphen) (-1)) as [_|Hle]; [|lia].
  rewrite Hsplit. cbn [length Nat.leb nth].
  split; [apply trim_trimmed|]. split; [apply trim_trimmed|].
  split; intros H; apply trim_incl in H;
    exact (before_first_free hyphen _ H).
Qed.

Lemma derived_fields_trimmed_witness :
  (indexOf (lit " A  - B -C") hyphen > -1)%Z
  /\ deriveArtistTitle (lit " A  - B -C") = (lit "A", lit "B")
  /\ trimmed (lit "A") /\ trimmed (lit "B")
  /\ ~ In hyphen (lit "A") /\ ~ In hyphen (lit "B").
Proof.
  assert (H : (indexOf (lit " A  - B -C") hyphen > -1)%Z)
    by (vm_compute; reflexivity).
  split; [exact H|]. split; [vm_compute; reflexivity|].
  exact (derived_fields_trimmed (lit " A  - B -C") H).
Defined.

(* ===================================================================== *)
(** ** Further properties: encoder directives, stream options, bitrate    *)
(* ===================================================================== *)

(** X8: the six tag directives always come first, in the order of the
    source, with the derived title and artist; what the caller put in
    [outputOptions] follows them: the elements of an array, nothing for a
    falsy value. *)
Theorem outputOptions_mandatory_first (options : object)
    (artist title : jsstring) :
  let mandatory :=
    [ VStr (lit "-id3v2_version"); VStr (lit "4");
      VStr (lit "-metadata"); VStr (lit "title=" ++ title);
      VStr (lit "-metadata"); VStr (lit "artist=" ++ artist) ] in
  exists extra,
    outputOptionsOf options artist title = mandatory ++ extra
    /\ (forall l, get options "outputOptions" = VArr l -> extra = l)
    /\ (truthy (get options "outputOptions") = false -> extra = []).
Proof.
  cbv zeta. unfold outputOptionsOf.
  destruct (get options "outputOptions") as [| |b|n|s|l|fields] eqn:E;
    cbn [truthy].
  - exists []. rewrite app_nil_r. repeat split; congruence.
  - exists []. rewrite app_nil_r. repeat split; congruence.
  - destruct b.
    + exists [VBool true]. repeat split; congruence.
    + exists []. rewrite app_nil_r. repeat split; congruence.
  - destruct (truthy_number n).
    + exists [VNum n]. repeat split; congruence.
    + exists []. rewrite app_nil_r. repeat split; congruence.
  - destruct (truthy_string s).
    + exists [VStr s]. repeat split; congruence.
    + exists []. rewrite app_nil_r. repeat split; congruence.
  - exists l. repeat split; congruence.
  - exists [VObj fields]. repeat split; congruence.
Qed.

(** The resolved options, property by property. *)
Lemma resolveOptions_lookup (cwd : jsstring) (options : option object)
    (k : string) :
  resolveOptions cwd options !! k =
    match default ∅ options !! k with
    | Some v => Some v
    | None => DEFAULT_OPTIONS cwd !! k
    end.
Proof.
  unfold resolveOptions, Object_assign.
  rewrite (right_id_L ∅ (∪)), lookup_union.
  destruct (default ∅ options !! k) as [v|];
    destruct (DEFAULT_OPTIONS cwd !! k); reflexivity.
Qed.

(** X9: unless the caller passes a truthy [allowWebm], the stream is opened
    with a filter that accepts exactly the formats whose container is
    "mp4"; with a truthy [allowWebm] there is no filter. *)
Theorem default_filter_mp4_only (cwd : jsstring) (options : option object) :
  let allow :=
    match default ∅ options !! "allowWebm"%string with
    | Some v => truthy v
    | None => false
    end in
  let filter := StreamOptions.filter (streamOptionsOf (resolveOptions cwd options)) in
  if allow then filter = None
  else exists f,
      filter = Some f
      /\ forall format, f format = true <-> Format.container format = lit "mp4".
Proof.
  cbv zeta. unfold streamOptionsOf. cbn [StreamOptions.filter].
  assert (E : truthy (get (resolveOptions cwd options) "allowWebm")
              = match default ∅ options !! "allowWebm"%string with
                | Some v => truthy v
                | None => false
                end).
  { unfold get. rewrite resolveOptions_lookup.
    destruct (default ∅ options !! "allowWebm"%string); reflexivity. }
  rewrite E.
  destruct (match default ∅ options !! "allowWebm"%string with
            | Some v => truthy v
            | None => false
            end); cbn [negb]; [reflexivity|].
  eexists. split; [reflexivity|].
  intros format. apply bool_decide_eq_true.
Qed.

Lemma find_first {A} (f : A -> bool) (l : list A) (x : A) :
  List.find f l = Some x ->
  exists skipped rest,
    l = skipped ++ x :: rest
    /\ Forall (fun y => f y = false) skipped /\ f x = true.
Proof.
  induction l as [|a l IH]; cbn [List.find]; [discriminate|].
  destruct (f a) eqn:Ha.
  - intros [= <-]. exists [], l. repeat split; [constructor | exact Ha].
  - intros H. destruct (IH H) as (skipped & rest & -> & Hs & Hx).
    exists (a :: skipped), rest. repeat split; [now constructor | exact Hx].
Qed.

(** X10: the bitrate read at the response is the [audioBitrate] of the
    first format whose [audioBitrate] is truthy, and the read raises a
    TypeError exactly when no format has one. *)
Theorem audioBitrateOf_characterised (formats : list Format.t) :
  (forall n,
      audioBitrateOf formats = Ok n <->
      exists skipped format rest,
        formats = skipped ++ format :: rest
        /\ Forall (fun g => exposes_bitrate g = false) skipped
        /\ Format.audioBitrate format = Some n
        /\ truthy_number n = true)
  /\ (forall e,
        audioBitrateOf formats = Throw e <->
        e = TypeError /\ Forall (fun g => exposes_bitrate g = false) formats).
Proof.
  split.
  - intros n. split.
    + unfold audioBitrateOf.
      destruct (List.find exposes_bitrate formats) as [format|] eqn:Hfind;
        [|discriminate].
      destruct (find_first _ _ _ Hfind) as (skipped & rest & -> & Hs & Hx).
      unfold exposes_bitrate in Hx.
      destruct (Format.audioBitrate format) as [m|] eqn:Hm; [|discriminate].
      intros [= <-]. now exists skipped, format, rest.
    + intros (skipped & format & rest & E & Hs & Hn & Ht).
      now apply (audioBitrateOf_first_exposed formats skipped format rest n).
  - intros e. split.
    + unfold audioBitrateOf.
      destruct (List.find exposes_bitrate formats) as [format|] eqn:Hfind;
        [discriminate|].
      intros [= <-]. split; [reflexivity|].
      apply List.Forall_forall. intros g Hg.
      exact (find_none _ _ Hfind g Hg).
    + intros [-> H]. now apply audioBitrateOf_none_exposed.
Qed.

(* ===================================================================== *)
(** ** Further properties: what can raise before the stream opens         *)
(* ===================================================================== *)


Section PrepareFacts.

Variable path_join : jsstring -> jsstring -> jsstring.
Variable sanitizeFilename : jsstring -> jsstring.




(** X13: when the caller gives no file name and the sanitized cleaned title
    is not empty, the output file is the sanitized title followed by
    ".mp3", joined to the output directory; the media ID plays no part. *)
Theorem sanitized_title_names_file (options : object) (videoTitle : jsstring)
    (d : VideoDetails.t) :
  nullish (get options "fileName") = true ->
  sanitizeFilename videoTitle <> [] ->
  outputFile path_join sanitizeFilename options videoTitle d =
    (dir ← outputDir options;
     Ok (path_join dir (sanitizeFilename videoTitle ++ lit ".mp3"))).
Proof.
  intros Hnone Hfull. unfold outputFile, coalesce. rewrite Hnone.
  unfold or_string.
  destruct (sanitizeFilename videoTitle) as [|c t]; [contradiction|].
  cbn [truthy_string as_string].
  destruct (outputDir options); reflexivity.
Qed.

End PrepareFacts.


Lemma sanitized_title_names_file_witness :
  let options := Self.options (plain_self (lit "/srv") (lit "abc123")) in
  let d := VideoInfo.videoDetails (sample_info (lit "Artist X - Cool Song") []) in
  nullish (get options "fileName") = true
  /\ sanitize_nothing (lit "Artist X - Cool Song") <> []
  /\ outputFile join_slash sanitize_nothing options (lit "Artist X - Cool Song") d
     = Ok (lit "/srv/Artist X - Cool Song.mp3").
Proof.
  cbv zeta.
  assert (Hnone : nullish (get (Self.options (plain_self (lit "/srv") (lit "abc123")))
                             "fileName") = true) by reflexivity.
  assert (Hfull : sanitize_nothing (lit "Artist X - Cool Song") <> [])
    by discriminate.
  split; [exact Hnone|]. split; [exact Hfull|].
  rewrite (sanitized_title_names_file join_slash sanitize_nothing _ _ _
             Hnone Hfull).
  reflexivity.
Defined.

(* ===================================================================== *)
(** ** Further properties: construction and the output directory          *)
(* ===================================================================== *)

Section ConstructorFacts.

Variable cwd : jsstring.
Variable resolve_path : jsstring -> option path.

(** A successful check leaves the output path in place and removes
    nothing. *)
Lemma ensureDir_ok (options : object) (fs fs' : FS) :
  _ensureDir resolve_path options fs = Ok fs' ->
  existsSync resolve_path fs'
    (coalesce (get options "outputPath") (VStr [])) = true
  /\ fs ⊆ fs'.
Proof.
  unfold _ensureDir.
  set (dir := coalesce (get options "outputPath") (VStr [])).
  destruct (existsSync resolve_path fs dir) eqn:Hex; cbn [negb].
  - intros [= <-]. split; [exact Hex | reflexivity].
  - unfold mkdirSync, existsSync.
    destruct dir as [| | | |s| |]; try discriminate.
    destruct (resolve_path s) as [q|]; [|discriminate].
    unfold mkdir_at.
    destruct (node_at fs q) as [k|] eqn:Hq; [discriminate|].
    destruct (node_at fs (parent q)) as [[|]|]; try discriminate.
    intros [= <-]. split.
    + apply bool_decide_eq_true. rewrite (node_at_created fs q Hq). eauto.
    + apply insert_subseteq.
      destruct q as [|c q]; [discriminate | exact Hq].
Qed.

(** X14: the directory check is idempotent: after it succeeded, running it
    again succeeds and changes nothing; and what it leaves extends the file
    system it found. *)
Theorem ensureDir_idempotent (options : object) (fs fs' : FS) :
  _ensureDir resolve_path options fs = Ok fs' ->
  _ensureDir resolve_path options fs' = Ok fs' /\ fs ⊆ fs'.
Proof.
  intros H. destruct (ensureDir_ok options fs fs' H) as [Hex Hsub].
  split; [|exact Hsub].
  unfold _ensureDir. rewrite Hex. reflexivity.
Qed.

(** X15: a construction that succeeds yields the instance with the given
    media ID and the resolved options, and leaves a file system in which
    the output path exists and nothing that was there is lost. *)
Theorem constructor_ensures_directory (videoId : jsstring)
    (options : option object) (fs fs' : FS) (self : Self.t) :
  constructor cwd resolve_path videoId options fs = Ok (self, fs') ->
  Self.videoId self = videoId
  /\ Self.options self = resolveOptions cwd options
  /\ existsSync resolve_path fs'
       (coalesce (get (Self.options self) "outputPath") (VStr [])) = true
  /\ fs ⊆ fs'.
Proof.
  unfold constructor. cbn [Self.options].
  destruct (_ensureDir resolve_path (resolveOptions cwd options) fs)
    as [fs1|e] eqn:E; cbn [mbind result_bind]; [|discriminate].
  intros [= <- <-]. cbn [Self.videoId Self.options].
  destruct (ensureDir_ok _ _ _ E) as [Hex Hsub].
  repeat split; assumption.
Qed.

(** X16: when the caller's options mention [outputPath] with a nullish
    value, the default directory is lost, the check runs on the empty
    string, and with a host on which the empty string names no location the
    construction raises ENOENT. *)
Theorem nullish_outputPath_breaks_constructor (videoId : jsstring)
    (options : object) (v : value) (fs : FS) :
  resolve_path [] = None ->
  options !! "outputPath"%string = Some v ->
  nullish v = true ->
  constructor cwd resolve_path videoId (Some options) fs
  = Throw (SystemError "ENOENT").
Proof.
  intros Hempty Hv Hnull. unfold constructor, _ensureDir. cbn [Self.options].
  assert (E : coalesce (get (resolveOptions cwd (Some options)) "outputPath")
                (VStr []) = VStr []).
  { unfold get. rewrite resolveOptions_lookup.
    change (default ∅ (Some options)) with options.
    rewrite Hv. unfold coalesce. rewrite Hnull. reflexivity. }
  rewrite E. unfold existsSync, mkdirSync. rewrite Hempty. reflexivity.
Qed.

End ConstructorFacts.

Lemma ensureDir_idempotent_witness :
  let fs : FS := {[ [lit "srv"] := Dir ]} in
  let fs' : FS := <[ [lit "srv"; lit "out"] := Dir ]> fs in
  let options : object :=
    resolveOptions (lit "/srv") (Some {[ "outputPath"%string := VStr (lit "/srv/out") ]}) in
  _ensureDir resolve_absolute options fs = Ok fs'
  /\ _ensureDir resolve_absolute options fs' = Ok fs' /\ fs ⊆ fs'.
Proof.
  cbv zeta.
  assert (H : _ensureDir resolve_absolute
                (resolveOptions (lit "/srv")
                   (Some {[ "outputPath"%string := VStr (lit "/srv/out") ]}))
                ({[ [lit "srv"] := Dir ]} : FS)
              = Ok (<[ [lit "srv"; lit "out"] := Dir ]>
                      ({[ [lit "srv"] := Dir ]} : FS)))
    by (vm_compute; reflexivity).
  split; [exact H | exact (ensureDir_idempotent resolve_absolute _ _ _ H)].
Defined.

Lemma constructor_ensures_directory_witness :
  let fs : FS := {[ [lit "srv"] := Dir ]} in
  let self := plain_self (lit "/srv") (lit "abc123") in
  constructor (lit "/srv") resolve_absolute (lit "abc123") None fs = Ok (self, fs)
  /\ existsSync resolve_absolute fs
       (coalesce (get (Self.options self) "outputPath") (VStr [])) = true.
Proof.
  cbv zeta.
  assert (H : constructor (lit "/srv") resolve_absolute (lit "abc123") None
                ({[ [lit "srv"] := Dir ]} : FS)
              = Ok (plain_self (lit "/srv") (lit "abc123"),
                    ({[ [lit "srv"] := Dir ]} : FS)))
    by (vm_compute; reflexivity).
  split; [exact H|].
  exact (proj1 (proj2 (proj2
           (constructor_ensures_directory (lit "/srv") resolve_absolute _ _ _ _ _ H)))).
Defined.

Lemma nullish_outputPath_breaks_constructor_witness :
  let options : object := {[ "outputPath"%string := VUndefined ]} in
  resolve_absolute [] = None
  /\ options !! "outputPath"%string = Some VUndefined
  /\ constructor (lit "/srv") resolve_absolute (lit "abc123") (Some options)
       ({[ [lit "srv"] := Dir ]} : FS)
     = Throw (SystemError "ENOENT").
Proof.
  cbv zeta.
  assert (H1 : resolve_absolute [] = None) by reflexivity.
  assert (H2 : ({[ "outputPath"%string := VUndefined ]} : object)
               !! "outputPath"%string = Some VUndefined) by reflexivity.
  split; [exact H1|]. split; [exact H2|].
  exact (nullish_outputPath_breaks_constructor (lit "/srv") resolve_absolute
           (lit "abc123") _ VUndefined _ H1 H2 eq_refl).
Defined.

(* ===================================================================== *)
(** ** Further properties: the listeners over a whole run                 *)
(* ===================================================================== *)

Section ListenerFacts.

Variable toFixed : number -> nat -> jsstring.
Variable parseFloat : jsstring -> number.
Variable self : Self.t.
Variable info : VideoInfo.t.
Variable p : Prepared.t.

Local Abbreviation handle := (step toFixed parseFloat self info p).
Local Abbreviation run := (deliver toFixed parseFloat self info p).

Lemma settle_keeps_rest o st :
  Run.encoder (settle o st) = Run.encoder st
  /\ Run.uncaught (settle o st) = Run.uncaught st.
Proof. unfold settle. destruct (Run.settled st); split; reflexivity. Qed.

Lemma callback_keeps_rest err data st :
  Run.encoder (callback err data st) = Run.encoder st
  /\ Run.uncaught (callback err data st) = Run.uncaught st.
Proof. unfold callback. destruct (truthy err); apply settle_keeps_rest. Qed.

Lemma run_app events more : run (events ++ more) = fold_left handle more (run events).
Proof. unfold deliver. apply fold_left_app. Qed.

Lemma fold_settled_stable more : forall st o,
  Run.settled st = Some o -> Run.settled (fold_left handle more st) = Some o.
Proof.
  induction more as [|ev more IH]; intros st o H; cbn [fold_left]; [exact H|].
  apply IH. now apply step_settled_stable.
Qed.

(** After an exception left a listener nothing is handled any more. *)
Lemma fold_uncaught_halts more : forall st e,
  Run.uncaught st = Some e -> fold_left handle more st = st.
Proof.
  induction more as [|ev more IH]; intros st e H; cbn [fold_left]; [reflexivity|].
  assert (E : handle st ev = st) by (unfold step; rewrite H; reflexivity).
  rewrite E. now apply (IH st e).
Qed.

Lemma startEncoder_ok enc :
  startEncoder self info p = Ok enc ->
  audioBitrateOf (VideoInfo.formats info) = Ok (Encoder.audioBitrate enc)
  /\ Encoder.audioCodec enc = lit "libmp3lame"
  /\ Encoder.format enc = lit "mp3"
  /\ Encoder.outputOptions enc
     = outputOptionsOf (Self.options self) (Prepared.artist p) (Prepared.title p)
  /\ Encoder.saveToFile enc = Prepared.fileName p.
Proof.
  unfold startEncoder.
  destruct (audioBitrateOf (VideoInfo.formats info)) as [b|e];
    cbn [mbind result_bind]; [|discriminate].
  intros [= <-]. repeat split.
Qed.

Lemma startEncoder_throw e :
  startEncoder self info p = Throw e
  <-> audioBitrateOf (VideoInfo.formats info) = Throw e.
Proof.
  unfold startEncoder.
  destruct (audioBitrateOf (VideoInfo.formats info)) as [b|e'];
    cbn [mbind result_bind]; split; congruence.
Qed.

(** Once the encoder is started, every sample delivered is emitted, and
    the encoder stays. *)
Lemma fold_started enc evs : forall st,
  startEncoder self info p = Ok enc ->
  Run.encoder st = Some enc ->
  Run.uncaught st = None ->
  Run.emitted (fold_left handle evs st)
  = Run.emitted st ++ map (tag self) (samples evs)
  /\ Run.encoder (fold_left handle evs st) = Some enc
  /\ Run.uncaught (fold_left handle evs st) = None.
Proof.
  induction evs as [|ev evs IH]; intros st Hstart Henc Hun; cbn [fold_left].
  - cbn. rewrite app_nil_r. now repeat split.
  - assert (Hstep : Run.emitted (handle st ev)
                    = Run.emitted st ++ map (tag self) (samples [ev])
                    /\ Run.encoder (handle st ev) = Some enc
                    /\ Run.uncaught (handle st ev) = None).
    { unfold step. rewrite Hun, Henc.
      destruct ev; cbn [samples flat_map map app];
        rewrite ?app_nil_r.
      - destruct (callback_keeps err None st) as [_ ->].
        destruct (callback_keeps_rest err None st) as [-> ->]. now repeat split.
      - rewrite Hstart. cbn. now repeat split.
      - cbn. now repeat split.
      - destruct (callback_keeps err None st) as [_ ->].
        destruct (callback_keeps_rest err None st) as [-> ->]. now repeat split.
      - destruct (callback_keeps VNull (Some (resultObj self p (Run.stats st))) st)
          as [_ ->].
        destruct (callback_keeps_rest VNull
                    (Some (resultObj self p (Run.stats st))) st) as [-> ->].
        now repeat split. }
    destruct Hstep as (He & Henc' & Hun').
    destruct (IH (handle st ev) Hstart Henc' Hun') as (He2 & Henc2 & Hun2).
    repeat split; [|exact Henc2 | exact Hun2].
    rewrite He2, He, <- app_assoc, <- map_app.
    unfold samples. cbn [flat_map]. rewrite app_nil_r. reflexivity.
Qed.

(** Before the response there is no progress tap and no encoder: only an
    error of the stream is heard. *)
Lemma handle_idle st ev :
  Run.encoder st = None -> Run.uncaught st = None -> ev <> StreamResponse ->
  Run.emitted (handle st ev) = Run.emitted st
  /\ Run.encoder (handle st ev) = None
  /\ Run.uncaught (handle st ev) = None.
Proof.
  intros Henc Hun Hev. unfold step. rewrite Hun, Henc.
  destruct ev; try contradiction; try (now repeat split).
  destruct (callback_keeps err None st) as [_ ->].
  destruct (callback_keeps_rest err None st) as [-> ->]. now repeat split.
Qed.

Lemma response_dec (ev : event) : {ev = StreamResponse} + {ev <> StreamResponse}.
Proof. destruct ev; first [left; reflexivity | right; discriminate]. Qed.

Lemma has_response_dec (evs : list event) :
  {In StreamResponse evs} + {~ In StreamResponse evs}.
Proof.
  induction evs as [|ev evs [IH|IH]].
  - right. intros [].
  - left. now right.
  - destruct (response_dec ev) as [->|Hev]; [left; now left|].
    right. intros [E|Hin]; [congruence | contradiction].
Qed.

Lemma fold_idle enc evs : forall st,
  startEncoder self info p = Ok enc ->
  Run.encoder st = None ->
  Run.uncaught st = None ->
  Run.emitted (fold_left handle evs st)
  = Run.emitted st ++ map (tag self) (samples (after_response evs))
  /\ Run.uncaught (fold_left handle evs st) = None.
Proof.
  induction evs as [|ev evs IH]; intros st Hstart Henc Hun; cbn [fold_left].
  - cbn. rewrite app_nil_r. now split.
  - destruct (response_dec ev) as [->|Hev].
    + cbn [after_response].
      assert (Hst : Run.emitted (handle st StreamResponse) = Run.emitted st
                    /\ Run.encoder (handle st StreamResponse) = Some enc
                    /\ Run.uncaught (handle st StreamResponse) = None).
      { unfold step. rewrite Hun, Hstart. cbn. now repeat split. }
      destruct Hst as (He & Henc' & Hun').
      destruct (fold_started enc evs _ Hstart Henc' Hun') as (He2 & _ & Hun2).
      split; [|exact Hun2]. rewrite He2, He. reflexivity.
    + destruct (handle_idle st ev Henc Hun Hev) as (He & Henc' & Hun').
      destruct (IH _ Hstart Henc' Hun') as (He2 & Hun2).
      split; [|exact Hun2]. rewrite He2, He.
      destruct ev; try reflexivity. contradiction.
Qed.

(** When the bitrate cannot be read, the first response ends the run with
    the exception, and nothing was emitted. *)
Lemma fold_idle_throw e evs : forall st,
  startEncoder self info p = Throw e ->
  Run.encoder st = None ->
  Run.uncaught st = None ->
  Run.emitted (fold_left handle evs st) = Run.emitted st
  /\ (In StreamResponse evs -> Run.uncaught (fold_left handle evs st) = Some e)
  /\ (~ In StreamResponse evs -> Run.uncaught (fold_left handle evs st) = None).
Proof.
  induction evs as [|ev evs IH]; intros st Hstart Henc Hun; cbn [fold_left].
  - repeat split; [intros [] | intros _; exact Hun].
  - destruct (response_dec ev) as [->|Hev].
    + assert (Hst : Run.emitted (handle st StreamResponse) = Run.emitted st
                    /\ Run.uncaught (handle st StreamResponse) = Some e).
      { unfold step. rewrite Hun, Hstart. cbn. now split. }
      destruct Hst as (He & Hun').
      rewrite (fold_uncaught_halts evs _ e Hun').
      repeat split; [exact He | intros _; exact Hun' |].
      intros Hn. exfalso. apply Hn. now left.
    + destruct (handle_idle st ev Henc Hun Hev) as (He & Henc' & Hun').
      destruct (IH _ Hstart Henc' Hun') as (He2 & Hyes & Hno).
      repeat split.
      * rewrite He2. exact He.
      * intros [E|Hin]; [congruence | now apply Hyes].
      * intros Hn. apply Hno. intros Hin. apply Hn. now right.
Qed.

Lemma latest_complete_snoc (l : list IProgress.t) (e : IProgress.t) :
  latest_complete (l ++ [e])
  = if is_complete e then Some e else latest_complete l.
Proof. unfold latest_complete. rewrite rev_app_distr. reflexivity. Qed.

(** The [stats] variable holds what the listener read from the most recent
    complete sample it emitted. *)
Lemma run_stats_latest events :
  Run.stats (run events)
  = match latest_complete (Run.emitted (run events)) with
    | Some e => onProgress toFixed parseFloat None (IProgress.progress e)
    | None => None
    end.
Proof.
  induction events as [|ev events IH] using rev_ind; [reflexivity|].
  rewrite run_snoc. unfold step.
  destruct (Run.uncaught (run events)); [exact IH|].
  destruct ev, (Run.encoder (run events)); try exact IH;
    try (destruct (callback_keeps err None (run events)) as [-> ->]; exact IH);
    try (destruct (startEncoder self info p); exact IH).
  - cbn [Run.stats Run.emitted]. rewrite latest_complete_snoc.
    unfold is_complete. cbn [IProgress.progress].
    destruct (strict_eq_number (Progress.percentage progress) 100%float) eqn:E.
    + unfold onProgress. cbn [IProgress.progress]. rewrite E. reflexivity.
    + unfold onProgress at 1. rewrite E. exact IH.
  - destruct (callback_keeps VNull
                (Some (resultObj self p (Run.stats (run events)))) (run events))
      as [-> ->].
    exact IH.
Qed.

(** An encoder appears in the state only when a response starts it. *)
Lemma handle_encoder st ev enc :
  Run.encoder (handle st ev) = Some enc ->
  Run.encoder st = Some enc
  \/ (ev = StreamResponse /\ startEncoder self info p = Ok enc).
Proof.
  unfold step.
  destruct (Run.uncaught st); [now left|].
  destruct ev; destruct (Run.encoder st) as [enc0|] eqn:Henc;
    rewrite ?(proj1 (callback_keeps_rest _ _ _)), ?Henc;
    try (destruct (startEncoder self info p) as [enc1|e1]; cbn [Run.encoder]);
    rewrite ?Henc; cbn [Run.encoder]; rewrite ?Henc;
    intros H; try discriminate; try (now left);
    right; split; congruence.
Qed.

Lemma run_encoder_inv events enc :
  Run.encoder (run events) = Some enc ->
  startEncoder self info p = Ok enc /\ In StreamResponse events.
Proof.
  induction events as [|ev events IH] using rev_ind; [discriminate|].
  rewrite run_snoc. intros H.
  destruct (handle_encoder _ _ _ H) as [H'|[-> Hs]].
  - destruct (IH H') as [Hs Hin]. split; [exact Hs|].
    apply in_or_app. now left.
  - split; [exact Hs|]. apply in_or_app. right. now left.
Qed.

(** Only a started encoder can end. *)
Lemma step_resolves_started st ev r :
  Run.settled st = None ->
  Run.settled (handle st ev) = Some (Resolved (Some r)) ->
  exists enc, Run.encoder st = Some enc /\ Run.uncaught st = None.
Proof.
  intros Hnone H.
  destruct (step_resolves toFixed parseFloat self info p st ev r Hnone H)
    as [-> _].
  revert H. unfold step.
  destruct (Run.uncaught st); [congruence|].
  destruct (Run.encoder st) as [enc|]; [eauto | congruence].
Qed.

Lemma run_resolved_started events r :
  Run.settled (run events) = Some (Resolved (Some r)) ->
  exists before after enc,
    events = before ++ FfmpegEnd :: after
    /\ Run.settled (run before) = None
    /\ Run.encoder (run before) = Some enc
    /\ Run.uncaught (run before) = None
    /\ r = resultObj self p (Run.stats (run before)).
Proof.
  induction events as [|ev events IH] using rev_ind.
  - unfold deliver. cbn. discriminate.
  - rewrite run_snoc. intros H.
    destruct (Run.settled (run events)) as [o|] eqn:Hs.
    + rewrite (step_settled_stable toFixed parseFloat self info p _ ev o Hs) in H.
      injection H as ->.
      destruct (IH eq_refl) as (before & after & enc & -> & Hrest).
      exists before, (after ++ [ev]), enc. split; [|exact Hrest].
      rewrite <- app_assoc. reflexivity.
    + destruct (step_resolves_started _ ev r Hs H) as (enc & Henc & Hun).
      destruct (step_resolves toFixed parseFloat self info p _ ev r Hs H)
        as [-> Hr].
      exists events, [], enc. now repeat split.
Qed.

(** An error reported while the promise is pending settles it. *)
Lemma handle_error st ev err :
  Run.settled st = None -> Run.uncaught st = None -> reports_error st ev err ->
  Run.settled (handle st ev)
  = Some (if truthy err then Rejected (Emitted err) else Resolved None).
Proof.
  intros Hs Hun Hev. unfold step. rewrite Hun.
  destruct Hev as [->|[-> [enc Henc]]]; [|rewrite Henc];
    unfold callback, settle; rewrite Hs;
    destruct (truthy err); try reflexivity;
    destruct (Run.encoder st); reflexivity.
Qed.

End ListenerFacts.

Section RunTheorems.

Variable path_join : jsstring -> jsstring -> jsstring.
Variable sanitizeFilename : jsstring -> jsstring.
Variable toFixed : number -> nat -> jsstring.
Variable parseFloat : jsstring -> number.
Variable self : Self.t.
Variable info : VideoInfo.t.

Local Abbreviation run :=
  (_downloadByInfo path_join sanitizeFilename toFixed parseFloat self info).

(** What a prepared run holds, read off the descriptor. *)
Lemma prepare_ok p :
  prepare path_join sanitizeFilename self info = Ok p ->
  let d := VideoInfo.videoDetails info in
  Prepared.videoTitle p = cleanFileName (VideoDetails.title d)
  /\ (Prepared.artist p, Prepared.title p)
     = deriveArtistTitle (cleanFileName (VideoDetails.title d))
  /\ thumbnailOf d = Ok (Prepared.thumbnail p).
Proof.
  cbv zeta. unfold prepare.
  destruct (thumbnailOf (VideoInfo.videoDetails info)) as [th|e];
    cbn [mbind result_bind]; [|discriminate].
  destruct (deriveArtistTitle _) as [artist title].
  destruct (outputFile _ _ _ _ _) as [f|e]; cbn [mbind result_bind];
    [|discriminate].
  intros [= <-]. repeat split.
Qed.

(** X17: the promise settles once: whatever the outcome after some events,
    it is still the outcome after any further events. *)
Theorem settled_is_final (events more : list event) (o : outcome) :
  Run.settled (run events) = Some o ->
  Run.settled (run (events ++ more)) = Some o.
Proof.
  unfold _downloadByInfo.
  destruct (prepare path_join sanitizeFilename self info) as [p|e];
    [|intros H; exact H].
  intros H. rewrite run_app. now apply fold_settled_stable.
Qed.

(** X18: an error reported while the promise is pending and no listener has
    raised settles the run, whatever follows: the promise is rejected with
    the payload of the error, or, when that payload is falsy, resolved with
    [null]. *)
Theorem error_event_settles_pending (before after : list event)
    (ev : event) (err : value) :
  Run.settled (run before) = None ->
  Run.uncaught (run before) = None ->
  reports_error (run before) ev err ->
  Run.settled (run (before ++ ev :: after))
  = Some (if truthy err then Rejected (Emitted err) else Resolved None).
Proof.
  unfold _downloadByInfo.
  destruct (prepare path_join sanitizeFilename self info) as [p|e];
    [|cbn; discriminate].
  intros Hs Hun Hev. rewrite run_app. cbn [fold_left].
  apply fold_settled_stable. now apply handle_error.
Qed.

(** X19: the progress events emitted are exactly the samples delivered
    after the first response, in order and each under the media ID of the
    instance; nothing is emitted when the run raised before the stream
    opened or when no format has an audio bitrate. *)
Theorem progress_emitted_in_order (events : list event) :
  Run.emitted (run events)
  = match prepare path_join sanitizeFilename self info,
          audioBitrateOf (VideoInfo.formats info) with
    | Ok _, Ok _ => map (tag self) (samples (after_response events))
    | _, _ => []
    end.
Proof.
  unfold _downloadByInfo.
  destruct (prepare path_join sanitizeFilename self info) as [p|e];
    [|reflexivity].
  destruct (audioBitrateOf (VideoInfo.formats info)) as [b|e] eqn:Hb.
  - assert (Hstart : exists enc, startEncoder self info p = Ok enc)
      by (unfold startEncoder; rewrite Hb; cbn; eauto).
    destruct Hstart as [enc Hstart].
    exact (proj1 (fold_idle toFixed parseFloat self info p enc events initial
                    Hstart eq_refl eq_refl)).
  - apply (startEncoder_throw self info p) in Hb.
    exact (proj1 (fold_idle_throw toFixed parseFloat self info p e events initial
                    Hb eq_refl eq_refl)).
Qed.

(** X20: at every point of a run the [stats] variable holds what the
    listener read from the most recent emitted sample at exactly 100
    percent, and nothing when there is none; the statistics of a result are
    the variable as it was when the encoder ended. *)
Theorem stats_from_latest_complete_sample (events : list event) :
  Run.stats (run events)
  = match latest_complete (Run.emitted (run events)) with
    | Some e => onProgress toFixed parseFloat None (IProgress.progress e)
    | None => None
    end
  /\ forall r,
      Run.settled (run events) = Some (Resolved (Some r)) ->
      exists before after,
        events = before ++ FfmpegEnd :: after
        /\ Run.settled (run before) = None
        /\ IResult.stats r = Run.stats (run before).
Proof.
  unfold _downloadByInfo.
  destruct (prepare path_join sanitizeFilename self info) as [p|e].
  - split; [apply run_stats_latest|].
    intros r H.
    destruct (run_resolved toFixed parseFloat self info p events r H)
      as (before & after & -> & Hs & ->).
    exists before, after. now repeat split.
  - split; [reflexivity | cbn; discriminate].
Qed.

(** X21: the result of a successful run carries the media ID of the
    instance, the watch URL built from it, the cleaned title of the
    descriptor, the artist and title derived from that cleaned title, and
    the thumbnail derived from the descriptor. *)
Theorem result_metadata (events : list event) (r : IResult.t) :
  Run.settled (run events) = Some (Resolved (Some r)) ->
  let d := VideoInfo.videoDetails info in
  IResult.videoId r = Self.videoId self
  /\ IResult.youtubeUrl r
     = lit "https://www.youtube.com/watch?v=" ++ Self.videoId self
  /\ IResult.videoTitle r = cleanFileName (VideoDetails.title d)
  /\ (IResult.artist r, IResult.title r) = deriveArtistTitle (IResult.videoTitle r)
  /\ thumbnailOf d = Ok (IResult.thumbnail r).
Proof.
  cbv zeta. unfold _downloadByInfo.
  destruct (prepare path_join sanitizeFilename self info) as [p|e] eqn:Hp;
    [|cbn; discriminate].
  intros H.
  destruct (run_resolved toFixed parseFloat self info p events r H)
    as (before & after & _ & _ & ->).
  destruct (prepare_ok p Hp) as (Ht & Hat & Hth).
  cbn [resultObj IResult.videoId IResult.youtubeUrl IResult.videoTitle
         IResult.artist IResult.title IResult.thumbnail].
  rewrite Ht. repeat split; assumption.
Qed.

(** X22: a result is produced only by the end of a started encoder: the
    events contain a response and an end of the encoder, no listener
    raised, and the encoder was started with the bitrate read from the
    formats, the codec "libmp3lame", the format "mp3", the directives
    built from the artist and title of the result, and the file the result
    names. *)
Theorem result_needs_encoder (events : list event) (r : IResult.t) :
  Run.settled (run events) = Some (Resolved (Some r)) ->
  exists enc,
    Run.encoder (run events) = Some enc
    /\ Run.uncaught (run events) = None
    /\ In StreamResponse events /\ In FfmpegEnd events
    /\ audioBitrateOf (VideoInfo.formats info) = Ok (Encoder.audioBitrate enc)
    /\ Encoder.audioCodec enc = lit "libmp3lame"
    /\ Encoder.format enc = lit "mp3"
    /\ Encoder.outputOptions enc
       = outputOptionsOf (Self.options self) (IResult.artist r) (IResult.title r)
    /\ Encoder.saveToFile enc = IResult.file r.
Proof.
  unfold _downloadByInfo.
  destruct (prepare path_join sanitizeFilename self info) as [p|e] eqn:Hp;
    [|cbn; discriminate].
  intros H.
  destruct (run_resolved_started toFixed parseFloat self info p events r H)
    as (before & after & enc & -> & _ & Henc & Hun & ->).
  destruct (run_encoder_inv toFixed parseFloat self info p before enc Henc)
    as [Hstart Hresp].
  destruct (startEncoder_ok self info p enc Hstart)
    as (Hb & Hcodec & Hfmt & Hopts & Hfile).
  destruct (fold_started toFixed parseFloat self info p enc (FfmpegEnd :: after)
              _ Hstart Henc Hun) as (_ & Henc' & Hun').
  exists enc. rewrite run_app.
  repeat split; try assumption.
  - apply in_or_app. now left.
  - apply in_or_app. right. now left.
Qed.

(** X23: a listener raises, leaving the promise to whatever it was, exactly
    when the stream opened, a response arrived and no format has an audio
    bitrate; the exception is the one of the bitrate read. *)
Theorem uncaught_iff (events : list event) (e : exn) :
  Run.uncaught (run events) = Some e
  <-> (exists p, prepare path_join sanitizeFilename self info = Ok p)
      /\ In StreamResponse events
      /\ audioBitrateOf (VideoInfo.formats info) = Throw e.
Proof.
  unfold _downloadByInfo.
  destruct (prepare path_join sanitizeFilename self info) as [p|e0].
  - destruct (startEncoder self info p) as [enc|e1] eqn:Hstart.
    + destruct (fold_idle toFixed parseFloat self info p enc events initial
                  Hstart eq_refl eq_refl) as [_ Hun].
      unfold deliver. rewrite Hun. split; [discriminate|].
      intros (_ & _ & Hb). apply (startEncoder_throw self info p) in Hb.
      congruence.
    + destruct (fold_idle_throw toFixed parseFloat self info p e1 events initial
                  Hstart eq_refl eq_refl) as (_ & Hyes & Hno).
      apply (startEncoder_throw self info p) in Hstart.
      unfold deliver. split.
      * intros H.
        assert (Hin : In StreamResponse events).
        { destruct (has_response_dec events) as [Hin|Hn];
            [exact Hin|].
          rewrite (Hno Hn) in H. discriminate. }
        rewrite (Hyes Hin) in H. injection H as <-.
        split; [eauto | now split].
      * intros (_ & Hin & Hb). rewrite (Hyes Hin). congruence.
  - cbn. split; [discriminate|]. intros ([p Hp] & _). discriminate.
Qed.

End RunTheorems.

Lemma settled_is_final_witness :
  exists o,
    Run.settled (sample_run whole_transfer) = Some o
    /\ Run.settled (sample_run (whole_transfer ++ [StreamError connection_reset]))
       = Some o.
Proof.
  destruct (Run.settled (sample_run whole_transfer)) as [o|] eqn:H;
    [|vm_compute in H; discriminate].
  exists o. split; [reflexivity|].
  exact (settled_is_final join_slash sanitize_nothing toFixed_blank parseFloat_zero
           _ _ whole_transfer [StreamError connection_reset] o H).
Defined.

(** Scenario E of the specification: an error of the stream after three
    samples rejects the run; the three progress events were emitted. *)
Lemma error_event_settles_pending_witness :
  let events := three_samples ++ StreamError connection_reset :: [FfmpegEnd] in
  Run.settled (sample_run three_samples) = None
  /\ Run.uncaught (sample_run three_samples) = None
  /\ Run.settled (sample_run events) = Some (Rejected (Emitted connection_reset))
  /\ length (Run.emitted (sample_run events)) = 3%nat.
Proof.
  cbv zeta.
  assert (Hs : Run.settled (sample_run three_samples) = None)
    by (vm_compute; reflexivity).
  assert (Hun : Run.uncaught (sample_run three_samples) = None)
    by (vm_compute; reflexivity).
  split; [exact Hs|]. split; [exact Hun|].
  split; [|vm_compute; reflexivity].
  exact (error_event_settles_pending join_slash sanitize_nothing toFixed_blank
           parseFloat_zero _ _ three_samples [FfmpegEnd]
           (StreamError connection_reset) connection_reset
           Hs Hun (or_introl eq_refl)).
Defined.

Lemma result_metadata_witness :
  exists r,
    Run.settled (sample_run whole_transfer) = Some (Resolved (Some r))
    /\ IResult.videoId r = lit "abc123"
    /\ IResult.youtubeUrl r = lit "https://www.youtube.com/watch?v=abc123"
    /\ IResult.videoTitle r = lit "Artist X - Cool Song"
    /\ (IResult.artist r, IResult.title r) = (lit "Artist X", lit "Cool Song")
    /\ IResult.thumbnail r = Some (lit "t.jpg").
Proof.
  destruct (Run.settled (sample_run whole_transfer)) as [[[r|]|]|] eqn:H;
    try (vm_compute in H; discriminate).
  exists r. split; [reflexivity|].
  destruct (result_metadata join_slash sanitize_nothing toFixed_blank
              parseFloat_zero _ _ whole_transfer r H)
    as (Hid & Hurl & Ht & Hat & Hth).
  split; [exact Hid|]. split; [exact Hurl|]. split; [exact Ht|].
  split.
  - rewrite Hat, Ht. vm_compute. reflexivity.
  - change (Ok (Some (lit "t.jpg")) = Ok (IResult.thumbnail r)) in Hth.
    congruence.
Defined.

Lemma result_needs_encoder_witness :
  exists r enc,
    Run.settled (sample_run whole_transfer) = Some (Resolved (Some r))
    /\ Run.encoder (sample_run whole_transfer) = Some enc
    /\ Encoder.audioBitrate enc = 128%float
    /\ Encoder.saveToFile enc = IResult.file r.
Proof.
  destruct (Run.settled (sample_run whole_transfer)) as [[[r|]|]|] eqn:H;
    try (vm_compute in H; discriminate).
  destruct (result_needs_encoder join_slash sanitize_nothing toFixed_blank
              parseFloat_zero _ _ whole_transfer r H)
    as (enc & Henc & _ & _ & _ & Hb & _ & _ & _ & Hfile).
  exists r, enc. split; [reflexivity|]. split; [exact Henc|].
  split; [|exact Hfile].
  change (Ok 128%float = Ok (Encoder.audioBitrate enc)) in Hb.
  congruence.
Defined.
